(** * sqlrender: dialect-aware argument binder, identifier quoter and renderer

    A shallow embedding of [sqlrender.go] and the properties of its binder
    ([QueryArgs.Bind], [QueryArgs.Identifier], [placeholderFor],
    [quoteIdentifier]) and of its renderer ([Renderer.FromStringWithDialect],
    [Renderer.findTemplateFile]). *)

From Stdlib Require Import Ascii String.
From stdpp Require Import base gmap strings list fin_maps pretty.

Local Open Scope string_scope.
Local Open Scope list_scope.
#[local] Set Warnings "-register-all".

(** ** Go values held in an [any]

    [Bind] and [Identifier] receive an [any]. What they observe of it is its
    dynamic kind, its length and elements when it is a slice or an array, and
    its text when it is a string. [VNil] is the nil interface (no dynamic
    type); [VSlice None] is a nil slice of some slice type and [VPtr None] a
    nil pointer of some pointer type: both are typed, hence not the nil
    interface. A Go array always has its elements. *)

Inductive value : Type :=
  | VNil
  | VBool (b : bool)
  | VInt (n : Z)
  | VString (s : string)
  | VPtr (target : option value)
  | VSlice (elems : option (list value))
  | VArray (elems : list value).

(** ** Package reflect, as far as [Bind] uses it *)

Module reflect.

Inductive Kind : Type :=
  | Invalid | Bool | Int | String | Pointer | Slice | Array.

(** [reflect.Value]: the zero Value comes from the nil interface only. *)
Record Value : Type := ValueOf { Interface : value }.

Definition kind (v : Value) : Kind :=
  match Interface v with
  | VNil => Invalid
  | VBool _ => Bool
  | VInt _ => Int
  | VString _ => String
  | VPtr _ => Pointer
  | VSlice _ => Slice
  | VArray _ => Array
  end.

Definition IsValid (v : Value) : bool :=
  match kind v with Invalid => false | _ => true end.

(** The elements of a slice or array; a nil slice has none. *)
Definition elements (v : Value) : list value :=
  match Interface v with
  | VSlice (Some l) => l
  | VArray l => l
  | _ => []
  end.

Definition Len (v : Value) : nat := length (elements v).

(** [v.Index(i).Interface()]; [None] stands for the index-out-of-range
    panic of reflect. *)
Definition Index (v : Value) (i : nat) : option value := elements v !! i.

End reflect.

(** ** Formatted texts

    [fmt.Sprintf] with [%d] of an int is the decimal numeral. Texts built with
    [%q] or [%v] (the panic text of [Identifier], the errors of the renderer
    and of the template engine) are kept as the format and its operands:
    their rendering is fmt's, not this package's. *)

Inductive operand : Type :=
  | OpString (s : string)
  | OpStrings (l : list string)
  | OpMessage (m : message)
with message : Type :=
  | Sprintf (format : string) (operands : list operand).

(** An [error] made by [fmt.Errorf] is determined by its message. *)
Definition error : Type := message.
Definition Errorf (format : string) (operands : list operand) : error :=
  Sprintf format operands.

Definition Sprintf_d (pre : string) (n : Z) : string := pre +:+ pretty n.

(** ** Package strings, as far as the binder uses it *)

Module strings.

(** [strings.Join(elems, sep)] *)
Definition Join (elems : list string) (sep : string) : string :=
  String.concat sep elems.

(** [strings.Split(s, sep)] for a separator of one byte: the pieces between
    the separators, in order; a text without separator is its only piece. *)
Fixpoint Split (s : string) (sep : ascii) : list string :=
  match s with
  | EmptyString => [EmptyString]
  | String c s' =>
      if Ascii.eqb c sep then EmptyString :: Split s' sep
      else match Split s' sep with
           | piece :: pieces => String c piece :: pieces
           | [] => [String c EmptyString]
           end
  end.

End strings.

(** ** Dialects *)

Definition Dialect : Type := string.

Definition DialectPostgres : Dialect := "postgres".
Definition DialectMySQL : Dialect := "mysql".
Definition DialectSQLite : Dialect := "sqlite".
Definition DialectSQLServer : Dialect := "sqlserver".
Definition DialectSnowflake : Dialect := "snowflake".
Definition DialectOracle : Dialect := "oracle".

(** ** The binder *)

Record QueryArgs : Type := mkQueryArgs {
  args : list value;
  dialect : Dialect
}.

Definition NewQueryArgs (d : Dialect) : QueryArgs :=
  {| args := []; dialect := d |}.

(** A method with receiver [*QueryArgs] either returns or panics, and in both
    cases leaves a binder behind. *)

Inductive Result (A : Type) : Type :=
  | Val (a : A)
  | Panic (msg : message).
Arguments Val {A} a.
Arguments Panic {A} msg.

Definition M (A : Type) : Type := QueryArgs → Result A * QueryArgs.

Definition ret {A} (a : A) : M A := λ qa, (Val a, qa).
Definition panic {A} (msg : message) : M A := λ qa, (Panic msg, qa).
Definition seqM {A B} (m : M A) (k : A → M B) : M B :=
  λ qa, match m qa with
        | (Val a, qa') => k a qa'
        | (Panic msg, qa') => (Panic msg, qa')
        end.

Notation "x <- m ;; k" := (seqM m (λ x, k))
  (at level 100, m at next level, right associativity, only parsing).
Notation "m ;;; k" := (seqM m (λ _, k))
  (at level 100, right associativity, only parsing).

(** [qa.args = append(qa.args, v)] *)
Definition append_arg (v : value) : M unit :=
  λ qa, (Val tt, {| args := args qa ++ [v]; dialect := dialect qa |}).
(** [len(qa.args)] *)
Definition len_args : M Z := λ qa, (Val (Z.of_nat (length (args qa))), qa).
Definition get_dialect : M Dialect := λ qa, (Val (dialect qa), qa).

Definition placeholderFor_in (d : Dialect) (n : Z) : string :=
  if String.eqb d DialectPostgres then Sprintf_d "$" n
  else if String.eqb d DialectSQLServer then Sprintf_d "@p" n
  else if String.eqb d DialectOracle then Sprintf_d ":" n
  else "?".

Definition placeholderFor (n : Z) : M string :=
  d <- get_dialect ;; ret (placeholderFor_in d n).

(** The loop of [Bind] over a slice or array: [idx] is the list of the
    indices still to visit, [placeholders] the slice made by
    [make([]string, n)] and filled in place. *)
Fixpoint Bind_loop (v : reflect.Value) (idx : list nat)
    (placeholders : list string) : M (list string) :=
  match idx with
  | [] => ret placeholders
  | i :: idx' =>
      match reflect.Index v i with
      | None => panic (Sprintf "reflect: slice index out of range" [])
      | Some val =>
          append_arg val ;;;
          n <- len_args ;;
          p <- placeholderFor n ;;
          Bind_loop v idx' (<[i := p]> placeholders)
      end
  end.

Definition Bind (arg : value) : M string :=
  let v := reflect.ValueOf arg in
  if negb (reflect.IsValid v) then
    append_arg VNil ;;;
    n <- len_args ;;
    placeholderFor n
  else
    match reflect.kind v with
    | reflect.Slice | reflect.Array =>
        let n := reflect.Len v in
        if Nat.eqb n 0 then ret "(NULL)"
        else
          placeholders <- Bind_loop v (seq 0 n) (replicate n "") ;;
          ret ("(" +:+ strings.Join placeholders ", " +:+ ")")
    | _ =>
        append_arg arg ;;;
        n <- len_args ;;
        placeholderFor n
    end.

(** ** Identifiers *)

(** The character class of [identifierPattern]: [A-Za-z0-9._]. *)
Definition identifier_class (c : ascii) : bool :=
  let n := nat_of_ascii c in
  (Nat.leb 65 n && Nat.leb n 90) || (Nat.leb 97 n && Nat.leb n 122)
  || (Nat.leb 48 n && Nat.leb n 57)
  || Ascii.eqb c "." || Ascii.eqb c "_".

Fixpoint all_in_class (s : string) : bool :=
  match s with
  | EmptyString => true
  | String c s' => identifier_class c && all_in_class s'
  end.

(** [identifierPattern.MatchString(s)] for the pattern [^[A-Za-z0-9._]+$]:
    one or more characters of the class, anchored at both ends of the text
    (in Go's syntax [$] without the multi-line flag is the end of the text).
    The class is ASCII, so no byte of a multi-byte rune is in it and matching
    byte by byte is matching rune by rune. *)
Definition identifierPattern_MatchString (s : string) : bool :=
  match s with
  | EmptyString => false
  | String _ _ => all_in_class s
  end.

Definition dquote : string := String (ascii_of_nat 34) EmptyString.

Definition quoteIdentifier_in (d : Dialect) (id : string) : string :=
  if String.eqb d DialectPostgres || String.eqb d DialectOracle
  then dquote +:+ id +:+ dquote
  else if String.eqb d DialectSQLServer then "[" +:+ id +:+ "]"
  else "`" +:+ id +:+ "`".

Definition quoteIdentifier (id : string) : M string :=
  d <- get_dialect ;; ret (quoteIdentifier_in d id).

(** [for i, part := range parts { parts[i] = qa.quoteIdentifier(part) }] *)
Fixpoint Identifier_loop (idx : list nat) (parts : list string)
    : M (list string) :=
  match idx with
  | [] => ret parts
  | i :: idx' =>
      match parts !! i with
      | None => panic (Sprintf "index out of range" [])
      | Some part =>
          q <- quoteIdentifier part ;;
          Identifier_loop idx' (<[i := q]> parts)
      end
  end.

Definition Identifier (name : value) : M string :=
  match name with
  | VString s =>
      if String.eqb s "" then ret ""
      else if negb (identifierPattern_MatchString s) then
        panic (Sprintf "sqlrender: invalid identifier %q" [OpString s])
      else
        let parts := strings.Split s "." in
        parts' <- Identifier_loop (seq 0 (length parts)) parts ;;
        ret (strings.Join parts' ".")
  | _ => ret ""
  end.

(** ** Template functions

    A [template.FuncMap] maps names to functions. [qa.Bind] and
    [qa.Identifier] are the method values of the binder of the render; a
    custom function does not see that binder: it returns a text, possibly
    with an error as second result, or panics. *)

Inductive CallOutcome : Type :=
  | Returns (out : string) (err : option error)
  | Panics (msg : message).

Inductive TemplateFunc : Type :=
  | BinderBind
  | BinderIdentifier
  | Custom (arity : nat) (body : list value → CallOutcome).

Abbreviation FuncMap := (gmap string TemplateFunc).

(** ** The renderer and its configuration *)

Record Renderer : Type := mkRenderer {
  searchPaths : list string;
  defaultDialect : Dialect;
  customFuncs : option FuncMap   (* [None] is the nil map *)
}.

Definition NewRenderer (d : Dialect) : Renderer :=
  {| searchPaths := []; defaultDialect := d; customFuncs := Some ∅ |}.

Definition SetDefaultDialect (r : Renderer) (d : Dialect) : Renderer :=
  {| searchPaths := searchPaths r; defaultDialect := d;
     customFuncs := customFuncs r |}.

Definition AddSearchPath (r : Renderer) (path : string) : Renderer :=
  {| searchPaths := searchPaths r ++ [path];
     defaultDialect := defaultDialect r; customFuncs := customFuncs r |}.

Definition SetSearchPaths (r : Renderer) (paths : list string) : Renderer :=
  {| searchPaths := paths; defaultDialect := defaultDialect r;
     customFuncs := customFuncs r |}.

(** [for name, fn := range funcs { target[name] = fn }]: the entries are
    visited in some order, each assigned into [target]. *)
Definition range_assign (entries : list (string * TemplateFunc))
    (target : FuncMap) : FuncMap :=
  fold_left (λ fm e, <[e.1 := e.2]> fm) entries target.

(** The entries of a map in the order a [range] visits them. *)
Definition range_entries (m : option FuncMap) : list (string * TemplateFunc) :=
  match m with
  | None => []
  | Some m => map_to_list m
  end.

Definition AddFunc (r : Renderer) (name : string) (fn : TemplateFunc)
    : Renderer :=
  let cf := match customFuncs r with None => ∅ | Some m => m end in
  {| searchPaths := searchPaths r; defaultDialect := defaultDialect r;
     customFuncs := Some (<[name := fn]> cf) |}.

Definition AddFuncs (r : Renderer) (funcs : option FuncMap) : Renderer :=
  let cf := match customFuncs r with None => ∅ | Some m => m end in
  {| searchPaths := searchPaths r; defaultDialect := defaultDialect r;
     customFuncs := Some (range_assign (range_entries funcs) cf) |}.

(** [template.FuncMap{"bind": qa.Bind, "identifier": qa.Identifier}] *)
Definition binder_funcs : FuncMap :=
  <["identifier" := BinderIdentifier]> (<["bind" := BinderBind]> ∅).

(** The function table of a render: [funcMap] starts as the two methods of
    the binder, then [for name, fn := range r.customFuncs] assigns
    [funcMap[name] = fn]. *)
Definition render_funcMap (r : Renderer) : FuncMap :=
  let funcMap := binder_funcs in
  range_assign (range_entries (customFuncs r)) funcMap.

(** ** Package text/template, as far as a render uses it

    The engine is not part of this package. Its parser is taken as given (see
    [text_template] below). Of its execution the part is modelled that a render
    depends on: a template is a sequence of literal texts and of actions
    [{{ f a1 ... an }}] calling a function of the table on fields of the data
    or constants, and a call goes through [safeCall] (text/template,
    funcs.go), which recovers a panic of the called function and hands it
    back as an error. *)

Module template.

Inductive Arg : Type :=
  | Field (name : string)          (* [.Name] *)
  | Const (v : value).

Inductive Node : Type :=
  | TextNode (text : string)
  | ActionNode (fname : string) (operands : list Arg).

Definition Template : Type := list Node.

(** A key missing from a [map[string]any] reaches a parameter of type
    [any] as the nil interface. *)
Definition evalArg (data : gmap string value) (a : Arg) : value :=
  match a with
  | Field name => default VNil (data !! name)
  | Const v => v
  end.

Definition arity (fn : TemplateFunc) : nat :=
  match fn with
  | BinderBind | BinderIdentifier => 1
  | Custom n _ => n
  end.

(** [fun.Call(argv)] *)
Definition call (fn : TemplateFunc) (argv : list value)
    : M (string * option error) :=
  match fn, argv with
  | BinderBind, [a] => s <- Bind a ;; ret (s, None)
  | BinderIdentifier, [a] => s <- Identifier a ;; ret (s, None)
  | Custom _ body, _ =>
      match body argv with
      | Returns out err => ret (out, err)
      | Panics msg => panic msg
      end
  | _, _ => panic (Sprintf "reflect: Call with wrong argument count" [])
  end.

(** [safeCall]: "If the call panics, the panic value is returned as an
    error." The binder keeps what the call did to it before panicking. *)
Definition safeCall (fn : TemplateFunc) (argv : list value)
    : M (string * option error) :=
  λ qa, match call fn argv qa with
        | (Val r, qa') => (Val r, qa')
        | (Panic msg, qa') =>
            (Val ("", Some (Errorf "%v" [OpMessage msg])), qa')
        end.

(** [tmpl.Execute(&buf, data)]: the text written to the buffer so far and
    the error, if any; an error stops the execution. The errors are given
    without the template name and position the engine puts in front, and
    the functions the engine predefines are left out. *)
Fixpoint Execute (funcs : FuncMap) (nodes : Template)
    (data : gmap string value) (buf : string)
    : M (string * option error) :=
  match nodes with
  | [] => ret (buf, None)
  | TextNode text :: nodes' => Execute funcs nodes' data (buf +:+ text)
  | ActionNode fname operands :: nodes' =>
      match funcs !! fname with
      | None =>
          ret (buf, Some (Errorf "%q is not a defined function"
                                 [OpString fname]))
      | Some fn =>
          if negb (Nat.eqb (length operands) (arity fn)) then
            ret (buf, Some (Errorf "wrong number of args for %s"
                                   [OpString fname]))
          else
            r <- safeCall fn (map (evalArg data) operands) ;;
            match r with
            | (_, Some err) =>
                ret (buf, Some (Errorf "error calling %s: %w"
                                       [OpString fname; OpMessage err]))
            | (out, None) => Execute funcs nodes' data (buf +:+ out)
            end
      end
  end.

End template.

(** ** Rendering *)

(** What a render asks of the template engine: to install the function
    table and parse the source
    ([template.New("sql").Funcs(funcMap).Parse(s)]: [Funcs] panics on a name
    that is no identifier, [Parse] returns the template or an error), and to
    execute the parsed template on the data ([tmpl.Execute(&buf, data)]),
    which gives the text written to the buffer and the error, if any, and
    may call the functions of the table, hence act on the binder. *)
Record Engine : Type := mkEngine {
  Template : Type;
  Parse : FuncMap → string → Result (Template + error);
  Execute : FuncMap → Template → gmap string value → string
            → M (string * option error)
}.

(** The engine of text/template, over a parser. *)
Definition text_template
    (parse : FuncMap → string → Result (template.Template + error))
    : Engine :=
  {| Template := template.Template;
     Parse := parse;
     Execute := template.Execute |}.

(** [if data == nil { data = map[string]any{} }] *)
Definition data_or_empty (data : option (gmap string value))
    : gmap string value :=
  match data with None => ∅ | Some d => d end.

Section Render.

Variable engine : Engine.

(** The filesystem: [os.Stat] (the error, [None] for nil), [os.ReadFile]
    and [filepath.Join]. *)
Variable os_Stat : string → option error.
Variable os_ReadFile : string → string + error.
Variable filepath_Join : string → string → string.

(** The results [(string, []any, error)] of a render; the nil slice is the
    empty list and the nil error is [None]. *)
Definition Rendered : Type := string * list value * option error.

Definition FromStringWithDialect (r : Renderer) (s : string)
    (data : option (gmap string value)) (dialect : Dialect)
    : Result Rendered :=
  let data := data_or_empty data in
  let qa := NewQueryArgs dialect in
  let funcMap := render_funcMap r in
  match Parse engine funcMap s with
  | Panic msg => Panic msg
  | Val (inr err) => Val ("", [], Some err)
  | Val (inl tmpl) =>
      match Execute engine funcMap tmpl data "" qa with
      | (Val (_, Some err), _) => Val ("", [], Some err)
      | (Val (buf, None), qa') => Val (buf, args qa', None)
      | (Panic msg, _) => Panic msg
      end
  end.

Definition FromString (r : Renderer) (s : string)
    (data : option (gmap string value)) : Result Rendered :=
  FromStringWithDialect r s data (defaultDialect r).

(** The loop of [findTemplateFile] over the search paths. *)
Fixpoint findTemplateFile_loop (dirs : list string) (name : string)
    : option string :=
  match dirs with
  | [] => None
  | dir :: dirs' =>
      let full := filepath_Join dir name in
      match os_Stat full with
      | None => Some full
      | Some _ => findTemplateFile_loop dirs' name
      end
  end.

Definition findTemplateFile (r : Renderer) (name : string)
    : string * option error :=
  match os_Stat name with
  | None => (name, None)
  | Some _ =>
      match findTemplateFile_loop (searchPaths r) name with
      | Some full => (full, None)
      | None =>
          ("", Some (Errorf
             "sqlrender: template %q not found in search paths: %v"
             [OpString name; OpStrings (searchPaths r)]))
      end
  end.

Definition FromTemplateWithDialect (r : Renderer) (name : string)
    (data : option (gmap string value)) (dialect : Dialect)
    : Result Rendered :=
  match findTemplateFile r name with
  | (_, Some err) => Val ("", [], Some err)
  | (path, None) =>
      match os_ReadFile path with
      | inr err =>
          Val ("", [], Some (Errorf "sqlrender: failed to read %q: %w"
                                    [OpString path; OpMessage err]))
      | inl content => FromStringWithDialect r content data dialect
      end
  end.

Definition FromTemplate (r : Renderer) (name : string)
    (data : option (gmap string value)) : Result Rendered :=
  FromTemplateWithDialect r name data (defaultDialect r).

End Render.

(** ** Vocabulary of the properties *)

(** A scalar is a value that is neither the nil interface nor a slice or an
    array: the [default] branch of [Bind]. *)
Definition scalar (v : value) : bool :=
  reflect.IsValid (reflect.ValueOf v) &&
  match reflect.kind (reflect.ValueOf v) with
  | reflect.Slice | reflect.Array => false
  | _ => true
  end.

(** [Bind] called on each value in turn, the returned placeholders
    collected in call order. *)
Fixpoint Bind_each (vs : list value) : M (list string) :=
  match vs with
  | [] => ret []
  | v :: vs' => p <- Bind v ;; ps <- Bind_each vs' ;; ret (p :: ps)
  end.

(** The dialects with positional placeholders, with the text that precedes
    the position. *)
Definition positional (d : Dialect) (pre : string) : Prop :=
  (d = DialectPostgres ∧ pre = "$") ∨
  (d = DialectSQLServer ∧ pre = "@p") ∨
  (d = DialectOracle ∧ pre = ":").

Definition collection (v : value) : bool :=
  match reflect.kind (reflect.ValueOf v) with
  | reflect.Slice | reflect.Array => true
  | _ => false
  end.

Definition custom_funcs (r : Renderer) : FuncMap :=
  match customFuncs r with None => ∅ | Some m => m end.

Definition shadow_bind : TemplateFunc :=
  Custom 1 (λ _, Returns "'unbound'" None).

(** A stand-in for the parser of the engine on the sources of a table, each
    given with its parse tree. *)
Definition Parse_known (known : list (string * template.Template))
    : FuncMap → string → Result (template.Template + error) :=
  λ _ s,
    match list_find (λ e, String.eqb e.1 s = true) known with
    | Some (_, (_, tmpl)) => Val (inl tmpl)
    | None => Val (inr (Errorf "template: sql: unexpected input" []))
    end.

Definition failing_func : TemplateFunc :=
  Custom 0 (λ _, Returns "" (Some (Errorf "boom" []))).

Definition bind_then_fail : list (string * template.Template) :=
  [("id = {{ bind .ID }} AND {{ fail }}",
    [template.TextNode "id = ";
     template.ActionNode "bind" [template.Field "ID"];
     template.TextNode " AND ";
     template.ActionNode "fail" []])].

(** A text with at least one character outside the class of
    [identifierPattern]. *)
Definition has_invalid_char (s : string) : Prop :=
  ∃ c, In c (list_ascii_of_string s) ∧ identifier_class c = false.

Definition invalid_identifier (s : string) : message :=
  Sprintf "sqlrender: invalid identifier %q" [OpString s].

Definition select_from_table : list (string * template.Template) :=
  [("SELECT * FROM {{ identifier .Table }}",
    [template.TextNode "SELECT * FROM ";
     template.ActionNode "identifier" [template.Field "Table"]])].

(** What the engine reports for a panic of a called function. *)
Definition recovered_panic (fname : string) (msg : message) : error :=
  Errorf "error calling %s: %w"
         [OpString fname; OpMessage (Errorf "%v" [OpMessage msg])].

(** The query of the usage guide, with its parse tree, and its data. *)
Definition users_query : list (string * template.Template) :=
  [("SELECT * FROM users WHERE id IN {{ bind .IDs }} AND active = {{ bind .Active }}",
    [template.TextNode "SELECT * FROM users WHERE id IN ";
     template.ActionNode "bind" [template.Field "IDs"];
     template.TextNode " AND active = ";
     template.ActionNode "bind" [template.Field "Active"]])].

Definition users_data : gmap string value :=
  <["IDs" := VSlice (Some [VInt 1; VInt 2; VInt 3])]>
    (<["Active" := VBool true]> ∅).

(** A filesystem with the one file sql/reports/q.sql, and a join by a
    slash. *)
Definition Stat_one_file (path : string) : option error :=
  if String.eqb path "sql/reports/q.sql" then None
  else Some (Errorf "stat %s: no such file or directory" [OpString path]).

Definition Join_slash (dir name : string) : string := dir +:+ "/" +:+ name.

(** What one call of [Bind] appends to the arguments: the nil entry for the
    nil interface, the elements of a slice or array, the value itself
    otherwise. *)
Definition appended (v : value) : list value :=
  match v with
  | VNil => [VNil]
  | VSlice _ | VArray _ => reflect.elements (reflect.ValueOf v)
  | _ => [v]
  end.

(** The segments of a name, each quoted for the dialect, joined by
    periods. *)
Definition quoted_name (d : Dialect) (s : string) : string :=
  strings.Join (map (quoteIdentifier_in d) (strings.Split s ".")) ".".

(** A node that calls the [Bind] method of the binder. *)
Definition calls_Bind (funcs : FuncMap) (node : template.Node) : bool :=
  match node with
  | template.TextNode _ => false
  | template.ActionNode fname _ =>
      match funcs !! fname with
      | Some BinderBind => true
      | _ => false
      end
  end.

(** The functions given to [AddFuncs]; the nil map has none. *)
Definition given_funcs (funcs : option FuncMap) : FuncMap :=
  match funcs with None => ∅ | Some m => m end.




(** A node that is a literal text or the action [{{ bind a }}]. *)
Definition text_or_bind (node : template.Node) : bool :=
  match node with
  | template.TextNode _ => true
  | template.ActionNode fname [_] => String.eqb fname "bind"
  | template.ActionNode _ _ => false
  end.

(** What the actions of a template hand to [Bind], in template order, each
    as [Bind] appends it. *)
Definition bound_values (data : gmap string value)
    (nodes : template.Template) : list value :=
  flat_map (λ node,
              match node with
              | template.ActionNode _ [a] => appended (template.evalArg data a)
              | _ => []
              end) nodes.

(** * Properties *)

(** Unfolds the operations of the binder monad. *)
Ltac unfold_binder :=
  unfold seqM, append_arg, len_args, placeholderFor, quoteIdentifier,
         get_dialect, ret, panic.

(** ** The binder: scalars and the nil interface *)

Lemma placeholderFor_in_positional d pre n :
  positional d pre → placeholderFor_in d n = pre +:+ pretty n.
Proof.
  intros [[-> ->]|[[-> ->]|[-> ->]]]; reflexivity.
Qed.

Lemma Bind_scalar v a d :
  scalar v = true →
  Bind v {| args := a; dialect := d |}
  = (Val (placeholderFor_in d (Z.of_nat (length a + 1))),
     {| args := a ++ [v]; dialect := d |}).
Proof.
  intros Hv.
  assert (Hlen : length (a ++ [v]) = length a + 1)
    by (rewrite length_app; reflexivity).
  destruct v; try discriminate Hv;
    unfold Bind; unfold_binder; simpl; rewrite Hlen; reflexivity.
Qed.

Lemma Bind_nil a d :
  Bind VNil {| args := a; dialect := d |}
  = (Val (placeholderFor_in d (Z.of_nat (length a + 1))),
     {| args := a ++ [VNil]; dialect := d |}).
Proof.
  unfold Bind. unfold_binder. simpl. rewrite length_app. reflexivity.
Qed.

Lemma Bind_each_scalars d vs : ∀ a,
  Forall (λ v, scalar v = true) vs →
  Bind_each vs {| args := a; dialect := d |}
  = (Val (map (λ i, placeholderFor_in d (Z.of_nat i))
              (seq (length a + 1) (length vs))),
     {| args := a ++ vs; dialect := d |}).
Proof.
  induction vs as [|v vs IH]; intros a Hvs.
  - simpl. rewrite app_nil_r. reflexivity.
  - inversion Hvs as [|? ? Hv Hvs']; subst.
    simpl. unfold seqM at 1. rewrite (Bind_scalar v a d Hv).
    unfold seqM at 1. rewrite (IH (a ++ [v]) Hvs').
    unfold ret. rewrite length_app. simpl.
    rewrite <- app_assoc. simpl.
    replace (S (length a + 1)) with (length a + 1 + 1) by lia.
    reflexivity.
Qed.

(** C1. Under Postgres, SQL Server and Oracle, [Bind] called on [k] scalar
    values one after the other, from a new binder, returns the placeholders
    [$1 .. $k] ([@p1 .. @pk], [:1 .. :k]): the text of the dialect followed
    by the decimal numerals of [1 .. k], in call order; and the arguments of
    the binder are then those [k] values in the same order. *)
Theorem C1_sequential_positional_placeholders d pre vs :
  positional d pre →
  Forall (λ v, scalar v = true) vs →
  Bind_each vs (NewQueryArgs d)
  = (Val (map (λ i, pre +:+ pretty (Z.of_nat i)) (seq 1 (length vs))),
     {| args := vs; dialect := d |}).
Proof.
  intros Hd Hvs. unfold NewQueryArgs.
  rewrite (Bind_each_scalars d vs [] Hvs). simpl. f_equal. f_equal.
  apply map_ext. intros i. apply placeholderFor_in_positional, Hd.
Qed.

Lemma C1_witness :
  Bind_each [VInt 7; VString "x"; VBool true; VPtr None]
            (NewQueryArgs DialectSQLServer)
  = (Val ["@p1"; "@p2"; "@p3"; "@p4"],
     {| args := [VInt 7; VString "x"; VBool true; VPtr None];
        dialect := DialectSQLServer |}).
Proof.
  apply (C1_sequential_positional_placeholders DialectSQLServer "@p"
           [VInt 7; VString "x"; VBool true; VPtr None]).
  - right; left; split; reflexivity.
  - repeat constructor.
Defined.

(** ** The binder: slices and arrays *)

(** The loop, started after the elements [done] with the placeholders [pre]
    already written, appends the remaining elements and writes their
    placeholders after [pre]. *)
Lemma Bind_loop_spec v d : ∀ todo done pre a,
  reflect.elements v = done ++ todo →
  length pre = length done →
  Bind_loop v (seq (length done) (length todo))
            (pre ++ replicate (length todo) "")
            {| args := a; dialect := d |}
  = (Val (pre ++ map (λ i, placeholderFor_in d (Z.of_nat i))
                     (seq (length a + 1) (length todo))),
     {| args := a ++ todo; dialect := d |}).
Proof.
  induction todo as [|t todo IH]; intros done pre a Hel Hlen.
  - simpl. rewrite !app_nil_r. reflexivity.
  - assert (Hidx : reflect.Index v (length done) = Some t).
    { unfold reflect.Index. rewrite Hel.
      rewrite lookup_app_r by lia. rewrite Nat.sub_diag. reflexivity. }
    simpl. rewrite Hidx. unfold_binder. simpl.
    replace (<[length done := placeholderFor_in d (Z.of_nat (length (a ++ [t])))]>
               (pre ++ "" :: replicate (length todo) ""))
      with ((pre ++ [placeholderFor_in d (Z.of_nat (length a + 1))])
              ++ replicate (length todo) "").
    2:{ rewrite <- Hlen, insert_app_r_alt, Nat.sub_diag by lia.
        simpl. rewrite <- app_assoc, length_app. reflexivity. }
    replace (S (length done)) with (length (done ++ [t]))
      by (rewrite length_app; simpl; lia).
    rewrite (IH (done ++ [t])
               (pre ++ [placeholderFor_in d (Z.of_nat (length a + 1))])
               (a ++ [t])).
    + rewrite <- !app_assoc. simpl. rewrite length_app. simpl.
      replace (S (length a + 1)) with (length a + 1 + 1) by lia.
      reflexivity.
    + rewrite Hel, <- app_assoc. reflexivity.
    + rewrite !length_app, Hlen. reflexivity.
Qed.

Lemma Bind_collection_unfold v :
  collection v = true →
  Bind v
  = let n := reflect.Len (reflect.ValueOf v) in
    if Nat.eqb n 0 then ret "(NULL)"
    else
      placeholders <- Bind_loop (reflect.ValueOf v) (seq 0 n)
                                (replicate n "") ;;
      ret ("(" +:+ strings.Join placeholders ", " +:+ ")").
Proof.
  intros Hc. destruct v; try discriminate Hc; reflexivity.
Qed.

Lemma Bind_collection_empty v qa :
  collection v = true → reflect.Len (reflect.ValueOf v) = 0 →
  Bind v qa = (Val "(NULL)", qa).
Proof.
  intros Hc Hn. rewrite (Bind_collection_unfold v Hc).
  cbv zeta. rewrite Hn. reflexivity.
Qed.

Lemma Bind_collection_nonempty v a d :
  collection v = true → 0 < reflect.Len (reflect.ValueOf v) →
  Bind v {| args := a; dialect := d |}
  = (Val ("(" +:+
          strings.Join
            (map (λ i, placeholderFor_in d (Z.of_nat i))
                 (seq (length a + 1) (reflect.Len (reflect.ValueOf v))))
            ", " +:+ ")"),
     {| args := a ++ reflect.elements (reflect.ValueOf v); dialect := d |}).
Proof.
  intros Hc Hn.
  pose proof (Bind_loop_spec (reflect.ValueOf v) d
                (reflect.elements (reflect.ValueOf v)) [] [] a
                eq_refl eq_refl) as Hloop.
  simpl in Hloop. fold (reflect.Len (reflect.ValueOf v)) in Hloop.
  assert (Hnz : Nat.eqb (reflect.Len (reflect.ValueOf v)) 0 = false)
    by (apply Nat.eqb_neq; lia).
  rewrite (Bind_collection_unfold v Hc).
  cbv zeta. rewrite Hnz. unfold seqM. rewrite Hloop. reflexivity.
Qed.

(** C2. For a slice or an array passed to [Bind]: with length 0, [Bind]
    returns exactly the text (NULL) and appends nothing to the arguments;
    with length [n > 0], [Bind] appends the elements, each as a bound value
    of its own, in the order of the collection, and returns, between
    parentheses and joined by a comma and a space, the [n] placeholders of
    the positions [len+1 .. len+n] that follow the running count [len], in
    ascending order. *)
Theorem C2_collection_binding v a d :
  collection v = true →
  let n := reflect.Len (reflect.ValueOf v) in
  (n = 0 →
     Bind v {| args := a; dialect := d |}
     = (Val "(NULL)", {| args := a; dialect := d |})) ∧
  (0 < n →
     Bind v {| args := a; dialect := d |}
     = (Val ("(" +:+
             strings.Join
               (map (λ i, placeholderFor_in d (Z.of_nat i))
                    (seq (length a + 1) n))
               ", " +:+ ")"),
        {| args := a ++ reflect.elements (reflect.ValueOf v);
           dialect := d |}) ∧
     length (map (λ i, placeholderFor_in d (Z.of_nat i))
                 (seq (length a + 1) n)) = n).
Proof.
  intros Hc n. split.
  - intros Hn. apply Bind_collection_empty; assumption.
  - intros Hn. split.
    + apply Bind_collection_nonempty; assumption.
    + rewrite length_map, length_seq. reflexivity.
Qed.

Lemma C2_witness :
  Bind (VSlice (Some [])) {| args := [VInt 9]; dialect := DialectOracle |}
  = (Val "(NULL)", {| args := [VInt 9]; dialect := DialectOracle |}) ∧
  Bind (VArray [VInt 6; VString "b"; VNil])
       {| args := [VInt 9]; dialect := DialectOracle |}
  = (Val "(:2, :3, :4)",
     {| args := [VInt 9; VInt 6; VString "b"; VNil];
        dialect := DialectOracle |}).
Proof.
  split.
  - apply (C2_collection_binding (VSlice (Some [])) [VInt 9] DialectOracle);
      reflexivity.
  - destruct (C2_collection_binding (VArray [VInt 6; VString "b"; VNil])
                [VInt 9] DialectOracle eq_refl) as [_ Hpos].
    destruct (Hpos (Nat.lt_0_succ 2)) as [Hbind _]. exact Hbind.
Defined.

(** ** The binder: nil values *)

(** C10. [Bind] takes its nil branch for the nil interface only: there it
    appends one nil entry and returns one placeholder. A nil slice of a slice
    type is a collection of length 0: [Bind] returns (NULL) for it and
    appends nothing, as it does for an array of length 0; it is not bound as
    a nil scalar. (A nil pointer of a pointer type is bound as the scalar it
    is.) *)
Theorem C10_only_nil_interface_is_null :
  (∀ v, negb (reflect.IsValid (reflect.ValueOf v)) = true ↔ v = VNil) ∧
  (∀ a d,
     Bind VNil {| args := a; dialect := d |}
     = (Val (placeholderFor_in d (Z.of_nat (length a + 1))),
        {| args := a ++ [VNil]; dialect := d |})) ∧
  collection (VSlice None) = true ∧
  reflect.Len (reflect.ValueOf (VSlice None)) = 0 ∧
  (∀ qa, Bind (VSlice None) qa = (Val "(NULL)", qa)) ∧
  (∀ qa, Bind (VArray []) qa = (Val "(NULL)", qa)) ∧
  (∀ a d,
     Bind (VPtr None) {| args := a; dialect := d |}
     = (Val (placeholderFor_in d (Z.of_nat (length a + 1))),
        {| args := a ++ [VPtr None]; dialect := d |})).
Proof.
  repeat split.
  - destruct v; simpl; intros H; try discriminate H; reflexivity.
  - intros ->. reflexivity.
  - apply Bind_nil.
  - intros a d. apply Bind_scalar. reflexivity.
Qed.

(** ** The binder: Snowflake *)

Lemma C7_counterexample :
  Bind (VInt 42) (NewQueryArgs DialectSnowflake)
  = (Val "?", {| args := [VInt 42]; dialect := DialectSnowflake |}) ∧
  fst (Bind (VInt 42) (NewQueryArgs DialectSnowflake)) ≠ Val "$1".
Proof.
  split; [reflexivity | discriminate].
Qed.

(** C7, as the code has it. Under the Snowflake dialect [placeholderFor]
    takes its default branch, with MySQL and SQLite: [Bind] of a scalar or
    of the nil interface returns the marker [?] at every running position,
    the position is not in the text. *)
Theorem C7_snowflake_placeholder_is_question_mark v a :
  scalar v = true ∨ v = VNil →
  Bind v {| args := a; dialect := DialectSnowflake |}
  = (Val "?", {| args := a ++ [v]; dialect := DialectSnowflake |}) ∧
  ∀ n, placeholderFor_in DialectSnowflake n = "?".
Proof.
  intros Hv. split; [|reflexivity].
  destruct Hv as [Hv | ->].
  - rewrite (Bind_scalar v a DialectSnowflake Hv). reflexivity.
  - rewrite Bind_nil. reflexivity.
Qed.

Lemma C7_witness :
  Bind (VString "eu") {| args := [VInt 1; VInt 2];
                         dialect := DialectSnowflake |}
  = (Val "?", {| args := [VInt 1; VInt 2; VString "eu"];
                 dialect := DialectSnowflake |}).
Proof.
  apply (C7_snowflake_placeholder_is_question_mark
           (VString "eu") [VInt 1; VInt 2]).
  left. reflexivity.
Defined.

(** ** Identifiers *)

(** [strings.Split] gives at least one piece, and joining the pieces with
    the separator gives the text back. *)
Lemma Split_nonempty s sep : strings.Split s sep ≠ [].
Proof.
  destruct s as [|c s]; simpl; [discriminate|].
  destruct (Ascii.eqb c sep); [discriminate|].
  destruct (strings.Split s sep); discriminate.
Qed.

Lemma Join_Split s sep :
  strings.Join (strings.Split s sep) (String sep EmptyString) = s.
Proof.
  unfold strings.Join. induction s as [|c s IH]; [reflexivity|].
  simpl. destruct (Ascii.eqb_spec c sep) as [->|Hne].
  - pose proof (Split_nonempty s sep) as Hs.
    destruct (strings.Split s sep) as [|p ps]; [contradiction|].
    simpl in *. rewrite IH. reflexivity.
  - pose proof (Split_nonempty s sep) as Hs.
    destruct (strings.Split s sep) as [|p ps]; [contradiction|].
    destruct ps as [|p' ps]; simpl in *; rewrite <- IH; reflexivity.
Qed.

(** The loop of [Identifier] quotes every part in place and touches nothing
    else. *)
Lemma Identifier_loop_step i idx parts part qa :
  parts !! i = Some part →
  Identifier_loop (i :: idx) parts qa
  = Identifier_loop idx (<[i := quoteIdentifier_in (dialect qa) part]> parts)
                    qa.
Proof. intros Hi. simpl. rewrite Hi. reflexivity. Qed.

Lemma Identifier_loop_spec qa : ∀ todo done,
  Identifier_loop (seq (length done) (length todo)) (done ++ todo) qa
  = (Val (done ++ map (quoteIdentifier_in (dialect qa)) todo), qa).
Proof.
  induction todo as [|t todo IH]; intros done.
  - reflexivity.
  - change (seq (length done) (length (t :: todo)))
      with (length done :: seq (S (length done)) (length todo)).
    rewrite (Identifier_loop_step _ _ _ t).
    2:{ rewrite lookup_app_r by lia. rewrite Nat.sub_diag. reflexivity. }
    rewrite insert_app_r_alt, Nat.sub_diag by lia.
    change (<[0 := quoteIdentifier_in (dialect qa) t]> (t :: todo))
      with ([quoteIdentifier_in (dialect qa) t] ++ todo).
    rewrite app_assoc.
    replace (S (length done))
      with (length (done ++ [quoteIdentifier_in (dialect qa) t]))
      by (rewrite length_app; simpl; lia).
    rewrite IH, <- app_assoc. reflexivity.
Qed.

Lemma MatchString_nonempty s :
  identifierPattern_MatchString s = true → s ≠ "".
Proof. destruct s; [discriminate | intros _; discriminate]. Qed.

Lemma Identifier_valid s qa :
  identifierPattern_MatchString s = true →
  Identifier (VString s) qa
  = (Val (strings.Join
            (map (quoteIdentifier_in (dialect qa)) (strings.Split s "."))
            "."),
     qa).
Proof.
  intros Hm. unfold Identifier.
  destruct (String.eqb_spec s "") as [->|_]; [discriminate Hm|].
  rewrite Hm. change (negb true) with false. cbv beta iota zeta.
  pose proof (Identifier_loop_spec qa (strings.Split s ".") []) as Hloop.
  simpl in Hloop. unfold seqM. rewrite Hloop. reflexivity.
Qed.

(** C5. For a name that matches the anchored class of letters, digits,
    underscore and period (hence is not empty), [Identifier] splits the name
    on the period, quotes each segment for the dialect and joins the quoted
    segments with a period; the quotes are double quotes under Postgres and
    Oracle, square brackets under SQL Server, backticks under MySQL, SQLite
    and Snowflake, as on the name public.users. *)
Theorem C5_identifier_split_quote_join s a d :
  identifierPattern_MatchString s = true →
  Identifier (VString s) {| args := a; dialect := d |}
  = (Val (strings.Join
            (map (quoteIdentifier_in d) (strings.Split s ".")) "."),
     {| args := a; dialect := d |}) ∧
  strings.Join (strings.Split s ".") "." = s ∧
  (∀ id, quoteIdentifier_in DialectPostgres id = dquote +:+ id +:+ dquote) ∧
  (∀ id, quoteIdentifier_in DialectOracle id = dquote +:+ id +:+ dquote) ∧
  (∀ id, quoteIdentifier_in DialectSQLServer id = "[" +:+ id +:+ "]") ∧
  (∀ id, quoteIdentifier_in DialectMySQL id = "`" +:+ id +:+ "`") ∧
  (∀ id, quoteIdentifier_in DialectSQLite id = "`" +:+ id +:+ "`") ∧
  (∀ id, quoteIdentifier_in DialectSnowflake id = "`" +:+ id +:+ "`") ∧
  (∀ d', d' = DialectPostgres ∨ d' = DialectOracle →
     fst (Identifier (VString "public.users") (NewQueryArgs d'))
     = Val (dquote +:+ "public" +:+ dquote +:+ "." +:+
            dquote +:+ "users" +:+ dquote)) ∧
  fst (Identifier (VString "public.users") (NewQueryArgs DialectSQLServer))
  = Val "[public].[users]" ∧
  (∀ d', d' = DialectMySQL ∨ d' = DialectSQLite ∨ d' = DialectSnowflake →
     fst (Identifier (VString "public.users") (NewQueryArgs d'))
     = Val "`public`.`users`").
Proof.
  intros Hm.
  split; [apply (Identifier_valid s {| args := a; dialect := d |} Hm)|].
  split; [apply (Join_Split s ".")|].
  repeat split.
  - intros d' [-> | ->]; reflexivity.
  - intros d' [-> | [-> | ->]]; reflexivity.
Qed.

Lemma C5_witness :
  Identifier (VString "dbo.People_2")
             {| args := [VInt 1]; dialect := DialectSQLServer |}
  = (Val "[dbo].[People_2]",
     {| args := [VInt 1]; dialect := DialectSQLServer |}).
Proof.
  destruct (C5_identifier_split_quote_join "dbo.People_2" [VInt 1]
              DialectSQLServer eq_refl) as [Hid _].
  exact Hid.
Defined.

(** C6. On a value that is not a string, and on the empty string,
    [Identifier] returns the empty text, without a panic, and leaves the
    arguments of the binder as they were; and on every input, whatever it
    returns and also when it panics, [Identifier] leaves the binder as it
    was. *)
Theorem C6_identifier_frame :
  (∀ name qa,
     (∀ s, name ≠ VString s) ∨ name = VString "" →
     Identifier name qa = (Val "", qa)) ∧
  (∀ name qa, snd (Identifier name qa) = qa).
Proof.
  split.
  - intros name qa [Hns | ->]; [|reflexivity].
    destruct name; try reflexivity. exfalso. apply (Hns s). reflexivity.
  - intros name qa. destruct name; try reflexivity.
    unfold Identifier.
    destruct (String.eqb s ""); [reflexivity|].
    destruct (identifierPattern_MatchString s) eqn:Hm.
    + change (negb true) with false. cbv beta iota zeta.
      pose proof (Identifier_loop_spec qa (strings.Split s ".") []) as Hloop.
      simpl in Hloop. unfold seqM. rewrite Hloop. reflexivity.
    + reflexivity.
Qed.

Lemma C6_witness :
  Identifier (VInt 123) {| args := [VBool true]; dialect := DialectMySQL |}
  = (Val "", {| args := [VBool true]; dialect := DialectMySQL |}) ∧
  Identifier (VString "") {| args := [VBool true]; dialect := DialectMySQL |}
  = (Val "", {| args := [VBool true]; dialect := DialectMySQL |}).
Proof.
  destruct C6_identifier_frame as [Hempty _]. split.
  - apply Hempty. left. intros s. discriminate.
  - apply Hempty. right. reflexivity.
Defined.

(** ** The function table of a render *)

(** Assigning entries with distinct names, in any order, overlays them on
    the target. *)
Lemma range_assign_union (entries : list (string * TemplateFunc)) :
  ∀ target : FuncMap,
  NoDup entries.*1 →
  range_assign entries target = list_to_map entries ∪ target.
Proof.
  unfold range_assign.
  induction entries as [|[name fn] entries IH]; intros target Hnd.
  - simpl. rewrite (left_id_L ∅ (∪)). reflexivity.
  - simpl in Hnd. apply NoDup_cons in Hnd as [Hfresh Hnd].
    simpl. rewrite (IH _ Hnd).
    rewrite <- insert_union_r
      by (apply not_elem_of_list_to_map_1; exact Hfresh).
    rewrite insert_union_l. reflexivity.
Qed.

Lemma render_funcMap_union r :
  render_funcMap r = custom_funcs r ∪ binder_funcs.
Proof.
  unfold render_funcMap, custom_funcs, range_entries.
  destruct (customFuncs r) as [m|].
  - rewrite range_assign_union by apply NoDup_fst_map_to_list.
    rewrite list_to_map_to_list. reflexivity.
  - simpl. rewrite (left_id_L ∅ (∪)). reflexivity.
Qed.

Lemma render_funcMap_lookup r name :
  render_funcMap r !! name
  = match custom_funcs r !! name with
    | Some fn => Some fn
    | None => binder_funcs !! name
    end.
Proof.
  rewrite render_funcMap_union, lookup_union.
  destruct (custom_funcs r !! name) as [fn|] eqn:Hc.
  - destruct (binder_funcs !! name); reflexivity.
  - destruct (binder_funcs !! name); reflexivity.
Qed.

Lemma C3_counterexample :
  render_funcMap (AddFunc (NewRenderer DialectPostgres) "bind" shadow_bind)
    !! "bind" = Some shadow_bind ∧
  render_funcMap (AddFunc (NewRenderer DialectPostgres) "bind" shadow_bind)
    !! "bind" ≠ Some BinderBind.
Proof.
  assert (H : render_funcMap
                (AddFunc (NewRenderer DialectPostgres) "bind" shadow_bind)
                !! "bind" = Some shadow_bind).
  { rewrite render_funcMap_lookup. unfold custom_funcs. simpl.
    rewrite lookup_insert_eq. reflexivity. }
  split; [exact H|]. rewrite H. discriminate.
Qed.

(** C3, as the code has it. The function table of a render starts as the
    two methods of the new binder, and the custom functions are assigned
    into it afterwards, whatever the order the loop visits them in: a name
    of the table is the custom function registered under it when there is
    one, and the method of the binder otherwise. So bind and identifier are
    the methods of the binder exactly when no custom function has their
    name; a custom function named bind or identifier replaces the
    built-in. *)
Theorem C3_custom_functions_overlay_builtins r :
  (∀ name,
     render_funcMap r !! name
     = match custom_funcs r !! name with
       | Some fn => Some fn
       | None => binder_funcs !! name
       end) ∧
  (∀ entries,
     entries ≡ₚ range_entries (customFuncs r) →
     range_assign entries binder_funcs = render_funcMap r) ∧
  (custom_funcs r !! "bind" = None →
     render_funcMap r !! "bind" = Some BinderBind) ∧
  (custom_funcs r !! "identifier" = None →
     render_funcMap r !! "identifier" = Some BinderIdentifier) ∧
  (∀ name fn,
     render_funcMap (AddFunc r name fn) !! name = Some fn).
Proof.
  split; [apply render_funcMap_lookup|].
  split.
  { intros entries Hperm.
    assert (Hnd : NoDup (range_entries (customFuncs r)).*1).
    { unfold range_entries. destruct (customFuncs r);
        [apply NoDup_fst_map_to_list | constructor]. }
    assert (Hnd' : NoDup entries.*1).
    { rewrite Hperm. exact Hnd. }
    unfold render_funcMap.
    rewrite !range_assign_union by assumption.
    f_equal. apply list_to_map_proper; assumption. }
  split; [|split].
  - intros Hc. rewrite render_funcMap_lookup, Hc. reflexivity.
  - intros Hc. rewrite render_funcMap_lookup, Hc. reflexivity.
  - intros name fn. rewrite render_funcMap_lookup.
    unfold custom_funcs, AddFunc. simpl. rewrite lookup_insert_eq.
    reflexivity.
Qed.

Lemma C3_witness :
  render_funcMap (AddFunc (NewRenderer DialectMySQL) "upper" shadow_bind)
    !! "bind" = Some BinderBind.
Proof.
  destruct (C3_custom_functions_overlay_builtins
              (AddFunc (NewRenderer DialectMySQL) "upper" shadow_bind))
    as (_ & _ & Hbind & _).
  apply Hbind. unfold custom_funcs. simpl.
  rewrite lookup_insert_ne by discriminate. apply lookup_empty.
Defined.

(** ** Execution of a template *)

Lemma safeCall_returns fn argv qa :
  ∃ r qa', template.safeCall fn argv qa = (Val r, qa').
Proof.
  unfold template.safeCall.
  destruct (template.call fn argv qa) as [[r|msg] qa']; eauto.
Qed.

(** The execution of a template returns: a panic of a called function is
    recovered by [safeCall]. *)
Lemma Execute_returns funcs data nodes : ∀ buf qa,
  ∃ r qa', template.Execute funcs nodes data buf qa = (Val r, qa').
Proof.
  induction nodes as [|node nodes IH]; intros buf qa.
  - simpl. unfold ret. eauto.
  - destruct node as [text | fname operands]; simpl.
    + apply IH.
    + destruct (funcs !! fname) as [fn|]; [|unfold ret; eauto].
      destruct (negb _); [unfold ret; eauto|].
      unfold seqM.
      destruct (safeCall_returns fn (map (template.evalArg data) operands) qa)
        as ([out [err|]] & qa' & ->).
      * unfold ret. eauto.
      * apply IH.
Qed.

(** Executing [pre ++ post] is executing [pre] and, when that succeeds,
    [post] on the buffer and the binder it leaves. *)
Lemma Execute_app funcs data pre post : ∀ buf qa,
  template.Execute funcs (pre ++ post) data buf qa
  = match template.Execute funcs pre data buf qa with
    | (Val (buf', None), qa') => template.Execute funcs post data buf' qa'
    | other => other
    end.
Proof.
  induction pre as [|node pre IH]; intros buf qa.
  - reflexivity.
  - destruct node as [text | fname operands]; simpl.
    + apply IH.
    + destruct (funcs !! fname) as [fn|]; [|reflexivity].
      destruct (negb _); [reflexivity|].
      unfold seqM.
      destruct (template.safeCall fn (map (template.evalArg data) operands) qa)
        as [[[out [err|]]|msg] qa'].
      * reflexivity.
      * apply IH.
      * reflexivity.
Qed.

(** C8. When the execution of the template fails, whatever the engine did
    before, the render returns the error with the empty text and no
    arguments: the text written to the buffer and the arguments appended to
    the binder before the failure are not returned. More generally a render
    that returns an error returns no text and no argument with it. *)
Theorem C8_execution_error_returns_nothing_else
    (engine : Engine) r s data dialect :
  (∀ tmpl buf err qa',
     Parse engine (render_funcMap r) s = Val (inl tmpl) →
     Execute engine (render_funcMap r) tmpl (data_or_empty data) ""
             (NewQueryArgs dialect)
     = (Val (buf, Some err), qa') →
     FromStringWithDialect engine r s data dialect
     = Val ("", [], Some err)) ∧
  (∀ text bound err,
     FromStringWithDialect engine r s data dialect
     = Val (text, bound, Some err) →
     text = "" ∧ bound = []).
Proof.
  split.
  - intros tmpl buf err qa' Hparse Hexec.
    unfold FromStringWithDialect. rewrite Hparse, Hexec. reflexivity.
  - intros text bound err. unfold FromStringWithDialect.
    destruct (Parse engine (render_funcMap r) s) as [[tmpl|perr]|pmsg].
    + destruct (Execute engine _ _ _ _ _) as [[[buf [e|]]|msg] qa'];
        intros H; inversion H; subst; split; reflexivity.
    + intros H; inversion H; subst; split; reflexivity.
    + discriminate.
Qed.

Lemma C8_witness :
  template.Execute
    (render_funcMap (AddFunc (NewRenderer DialectPostgres) "fail" failing_func))
    [template.TextNode "id = ";
     template.ActionNode "bind" [template.Field "ID"];
     template.TextNode " AND ";
     template.ActionNode "fail" []]
    {[ "ID" := VInt 7 ]} "" (NewQueryArgs DialectPostgres)
  = (Val ("id = $1 AND ",
          Some (Errorf "error calling %s: %w"
                       [OpString "fail"; OpMessage (Errorf "boom" [])])),
     {| args := [VInt 7]; dialect := DialectPostgres |}) ∧
  FromStringWithDialect (text_template (Parse_known bind_then_fail))
    (AddFunc (NewRenderer DialectPostgres) "fail" failing_func)
    "id = {{ bind .ID }} AND {{ fail }}"
    (Some {[ "ID" := VInt 7 ]}) DialectPostgres
  = Val ("", [], Some (Errorf "error calling %s: %w"
                              [OpString "fail"; OpMessage (Errorf "boom" [])])).
Proof.
  assert (Hexec :
    template.Execute
      (render_funcMap
         (AddFunc (NewRenderer DialectPostgres) "fail" failing_func))
      [template.TextNode "id = ";
       template.ActionNode "bind" [template.Field "ID"];
       template.TextNode " AND ";
       template.ActionNode "fail" []]
      {[ "ID" := VInt 7 ]} "" (NewQueryArgs DialectPostgres)
    = (Val ("id = $1 AND ",
            Some (Errorf "error calling %s: %w"
                         [OpString "fail"; OpMessage (Errorf "boom" [])])),
       {| args := [VInt 7]; dialect := DialectPostgres |}))
    by (vm_compute; reflexivity).
  split; [exact Hexec|].
  destruct (C8_execution_error_returns_nothing_else
              (text_template (Parse_known bind_then_fail))
              (AddFunc (NewRenderer DialectPostgres) "fail" failing_func)
              "id = {{ bind .ID }} AND {{ fail }}"
              (Some {[ "ID" := VInt 7 ]}) DialectPostgres) as [Hfail _].
  apply (Hfail _ _ _ _ eq_refl Hexec).
Defined.

(** ** Invalid identifiers *)

Lemma all_in_class_false s :
  has_invalid_char s → all_in_class s = false.
Proof.
  intros (c & Hin & Hc). induction s as [|c' s IH]; simpl in *.
  - contradiction.
  - destruct Hin as [-> | Hin].
    + rewrite Hc. reflexivity.
    + rewrite (IH Hin). apply andb_false_r.
Qed.

Lemma all_in_class_true s :
  all_in_class s = true ↔
  ∀ c, In c (list_ascii_of_string s) → identifier_class c = true.
Proof.
  induction s as [|c' s IH]; simpl.
  - split; [intros _ c [] | reflexivity].
  - rewrite andb_true_iff, IH. split.
    + intros [Hc Hs] c [<- | Hin]; auto.
    + intros H. split; [apply H; left; reflexivity|].
      intros c Hin. apply H. right. exact Hin.
Qed.

(** The pattern matches the texts that are not empty and have all their
    characters in the class. *)
Lemma MatchString_spec s :
  identifierPattern_MatchString s = true ↔
  s ≠ "" ∧ ∀ c, In c (list_ascii_of_string s) → identifier_class c = true.
Proof.
  split.
  - intros Hm. split; [apply MatchString_nonempty, Hm|].
    apply all_in_class_true. destruct s; [discriminate Hm | exact Hm].
  - intros [Hne Hall]. destruct s as [|c s]; [congruence|].
    apply all_in_class_true, Hall.
Qed.

Lemma Identifier_invalid s qa :
  has_invalid_char s →
  Identifier (VString s) qa = (Panic (invalid_identifier s), qa).
Proof.
  intros Hs. pose proof (all_in_class_false s Hs) as Hall.
  destruct s as [|c s]; [destruct Hs as (c & [] & _)|].
  unfold Identifier. simpl String.eqb.
  unfold identifierPattern_MatchString. rewrite Hall. reflexivity.
Qed.

Lemma C4_counterexample :
  has_invalid_char "users;DROP" ∧
  FromStringWithDialect (text_template (Parse_known select_from_table))
    (NewRenderer DialectPostgres)
    "SELECT * FROM {{ identifier .Table }}"
    (Some {[ "Table" := VString "users;DROP" ]}) DialectPostgres
  = Val ("", [],
         Some (recovered_panic "identifier"
                               (invalid_identifier "users;DROP"))) ∧
  ∀ msg,
    FromStringWithDialect (text_template (Parse_known select_from_table))
      (NewRenderer DialectPostgres)
      "SELECT * FROM {{ identifier .Table }}"
      (Some {[ "Table" := VString "users;DROP" ]}) DialectPostgres
    ≠ Panic msg.
Proof.
  assert (H : FromStringWithDialect (text_template (Parse_known select_from_table))
                (NewRenderer DialectPostgres)
                "SELECT * FROM {{ identifier .Table }}"
                (Some {[ "Table" := VString "users;DROP" ]}) DialectPostgres
              = Val ("", [],
                     Some (recovered_panic "identifier"
                             (invalid_identifier "users;DROP"))))
    by (vm_compute; reflexivity).
  split; [|split].
  - exists ";"%char. split; [simpl; tauto | reflexivity].
  - exact H.
  - intros msg. rewrite H. discriminate.
Qed.

(** C4, as the code has it. For a name with at least one character outside
    letters, digits, underscore and period, [Identifier] panics with a
    message made of the offending text, returns no text and leaves the
    binder as it was. In a render the call goes through the engine, which
    recovers the panic and reports it as an error of the execution: when
    the execution of the template reaches a call of the built-in identifier
    with such a name, the render returns to its caller, with an error value
    that wraps the message of the panic, the empty text and no argument. *)
Theorem C4_invalid_identifier_panics_recovered_by_engine s :
  has_invalid_char s →
  (∀ qa, Identifier (VString s) qa = (Panic (invalid_identifier s), qa)) ∧
  (∀ qa,
     template.safeCall BinderIdentifier [VString s] qa
     = (Val ("", Some (Errorf "%v" [OpMessage (invalid_identifier s)])), qa)) ∧
  (∀ (parse : FuncMap → string → Result (template.Template + error))
     r src data dialect pre operand post buf qa,
     custom_funcs r !! "identifier" = None →
     parse (render_funcMap r) src
     = Val (inl (pre ++ template.ActionNode "identifier" [operand] :: post)) →
     template.evalArg (data_or_empty data) operand = VString s →
     template.Execute (render_funcMap r) pre (data_or_empty data) ""
                      (NewQueryArgs dialect)
     = (Val (buf, None), qa) →
     FromStringWithDialect (text_template parse) r src data dialect
     = Val ("", [], Some (recovered_panic "identifier"
                                          (invalid_identifier s)))).
Proof.
  intros Hs.
  assert (Hcall : ∀ qa,
    template.safeCall BinderIdentifier [VString s] qa
    = (Val ("", Some (Errorf "%v" [OpMessage (invalid_identifier s)])), qa)).
  { intros qa. unfold template.safeCall, template.call, seqM.
    rewrite (Identifier_invalid s qa Hs). reflexivity. }
  split; [intros qa; apply Identifier_invalid, Hs|].
  split; [exact Hcall|].
  intros parse r src data dialect pre operand post buf qa
         Hcustom Hparse Harg Hpre.
  unfold FromStringWithDialect. simpl Parse. simpl Execute.
  rewrite Hparse, Execute_app, Hpre.
  assert (Hfn : render_funcMap r !! "identifier" = Some BinderIdentifier).
  { rewrite render_funcMap_lookup, Hcustom. reflexivity. }
  simpl. rewrite Hfn. simpl. rewrite Harg.
  unfold seqM. rewrite Hcall. reflexivity.
Qed.

Lemma C4_witness :
  Identifier (VString "users;DROP")
             {| args := [VInt 1]; dialect := DialectMySQL |}
  = (Panic (invalid_identifier "users;DROP"),
     {| args := [VInt 1]; dialect := DialectMySQL |}) ∧
  FromStringWithDialect (text_template (Parse_known select_from_table))
    (NewRenderer DialectSQLServer)
    "SELECT * FROM {{ identifier .Table }}"
    (Some {[ "Table" := VString "users;DROP" ]}) DialectSQLServer
  = Val ("", [],
         Some (recovered_panic "identifier"
                               (invalid_identifier "users;DROP"))).
Proof.
  assert (Hs : has_invalid_char "users;DROP").
  { exists ";"%char. split; [simpl; tauto | reflexivity]. }
  destruct (C4_invalid_identifier_panics_recovered_by_engine "users;DROP" Hs)
    as (Hpanic & _ & Hrender).
  split; [apply Hpanic|].
  apply (Hrender (Parse_known select_from_table)
           (NewRenderer DialectSQLServer)
           "SELECT * FROM {{ identifier .Table }}"
           (Some {[ "Table" := VString "users;DROP" ]}) DialectSQLServer
           [template.TextNode "SELECT * FROM "] (template.Field "Table") []
           "SELECT * FROM " (NewQueryArgs DialectSQLServer)).
  - reflexivity.
  - reflexivity.
  - reflexivity.
  - reflexivity.
Defined.

(** ** Resolution of a named template *)

(** C9. The file of a named template is the name itself when [os.Stat]
    finds an entry at it; otherwise the name joined onto the first directory
    of the search paths, in the order they were added, at which [os.Stat]
    finds an entry; and when there is none the resolution fails with the
    not-found error made of the requested name and of the whole list of
    search paths, in order. *)
Theorem C9_findTemplateFile_resolution
    (os_Stat : string → option error)
    (filepath_Join : string → string → string) r name :
  (os_Stat name = None →
     findTemplateFile os_Stat filepath_Join r name = (name, None)) ∧
  (∀ pre dir post,
     os_Stat name ≠ None →
     searchPaths r = pre ++ dir :: post →
     Forall (λ d, os_Stat (filepath_Join d name) ≠ None) pre →
     os_Stat (filepath_Join dir name) = None →
     findTemplateFile os_Stat filepath_Join r name
     = (filepath_Join dir name, None)) ∧
  (os_Stat name ≠ None →
     Forall (λ d, os_Stat (filepath_Join d name) ≠ None) (searchPaths r) →
     findTemplateFile os_Stat filepath_Join r name
     = ("", Some (Errorf
                    "sqlrender: template %q not found in search paths: %v"
                    [OpString name; OpStrings (searchPaths r)]))) ∧
  (∀ paths,
     searchPaths (foldl AddSearchPath r paths) = searchPaths r ++ paths).
Proof.
  assert (Hloop_none : ∀ dirs,
    Forall (λ d, os_Stat (filepath_Join d name) ≠ None) dirs →
    findTemplateFile_loop os_Stat filepath_Join dirs name = None).
  { induction dirs as [|d dirs IH]; intros Hall; [reflexivity|].
    inversion Hall as [|? ? Hd Hds]; subst. simpl.
    destruct (os_Stat (filepath_Join d name)); [apply IH, Hds | congruence]. }
  assert (Hloop_some : ∀ pre dir post,
    Forall (λ d, os_Stat (filepath_Join d name) ≠ None) pre →
    os_Stat (filepath_Join dir name) = None →
    findTemplateFile_loop os_Stat filepath_Join (pre ++ dir :: post) name
    = Some (filepath_Join dir name)).
  { induction pre as [|d pre IH]; intros dir post Hall Hdir; simpl.
    - rewrite Hdir. reflexivity.
    - inversion Hall as [|? ? Hd Hds]; subst.
      destruct (os_Stat (filepath_Join d name)); [|congruence].
      apply IH; assumption. }
  split; [|split; [|split]].
  - intros Hname. unfold findTemplateFile. rewrite Hname. reflexivity.
  - intros pre dir post Hname Hpaths Hpre Hdir. unfold findTemplateFile.
    destruct (os_Stat name); [|congruence].
    rewrite Hpaths, (Hloop_some pre dir post Hpre Hdir). reflexivity.
  - intros Hname Hall. unfold findTemplateFile.
    destruct (os_Stat name); [|congruence].
    rewrite (Hloop_none _ Hall). reflexivity.
  - intros paths. revert r. induction paths as [|p paths IH]; intros r0.
    + simpl. rewrite app_nil_r. reflexivity.
    + simpl. rewrite IH. simpl. rewrite <- app_assoc. reflexivity.
Qed.

Lemma C9_witness :
  findTemplateFile Stat_one_file Join_slash
    (AddSearchPath (AddSearchPath (NewRenderer DialectMySQL) "templates") "sql")
    "reports/q.sql"
  = ("sql/reports/q.sql", None) ∧
  findTemplateFile Stat_one_file Join_slash
    (AddSearchPath (AddSearchPath (NewRenderer DialectMySQL) "templates") "sql")
    "missing.sql"
  = ("", Some (Errorf "sqlrender: template %q not found in search paths: %v"
                      [OpString "missing.sql"; OpStrings ["templates"; "sql"]])).
Proof.
  split.
  - destruct (C9_findTemplateFile_resolution Stat_one_file Join_slash
                (AddSearchPath
                   (AddSearchPath (NewRenderer DialectMySQL) "templates") "sql")
                "reports/q.sql") as (_ & Hfound & _).
    apply (Hfound ["templates"] "sql" []).
    + discriminate.
    + reflexivity.
    + repeat constructor. discriminate.
    + reflexivity.
  - destruct (C9_findTemplateFile_resolution Stat_one_file Join_slash
                (AddSearchPath
                   (AddSearchPath (NewRenderer DialectMySQL) "templates") "sql")
                "missing.sql") as (_ & _ & Hnone & _).
    apply Hnone.
    + discriminate.
    + repeat constructor; discriminate.
Defined.

(** ** Renders over text/template return *)

(** With the engine of text/template, once the function table is installed
    a render returns to its caller, whatever the functions of the table do:
    their panics come back as errors of the execution. *)
Lemma FromStringWithDialect_text_template_returns parse r s data dialect :
  (∃ parsed, parse (render_funcMap r) s = Val parsed) →
  ∃ res,
    FromStringWithDialect (text_template parse) r s data dialect = Val res.
Proof.
  intros [parsed Hparse].
  unfold FromStringWithDialect. simpl Parse. simpl Execute. rewrite Hparse.
  destruct parsed as [tmpl|err]; [|eauto].
  destruct (Execute_returns (render_funcMap r) (data_or_empty data) tmpl ""
              (NewQueryArgs dialect)) as ([buf [err|]] & qa' & ->); eauto.
Qed.

(** ** The renders of the usage guide *)

Example render_users_query_postgres :
  FromStringWithDialect (text_template (Parse_known users_query))
    (NewRenderer DialectMySQL)
    "SELECT * FROM users WHERE id IN {{ bind .IDs }} AND active = {{ bind .Active }}"
    (Some users_data) DialectPostgres
  = Val ("SELECT * FROM users WHERE id IN ($1, $2, $3) AND active = $4",
         [VInt 1; VInt 2; VInt 3; VBool true], None).
Proof. vm_compute. reflexivity. Qed.

Example render_users_query_sqlserver :
  FromStringWithDialect (text_template (Parse_known users_query))
    (NewRenderer DialectMySQL)
    "SELECT * FROM users WHERE id IN {{ bind .IDs }} AND active = {{ bind .Active }}"
    (Some users_data) DialectSQLServer
  = Val ("SELECT * FROM users WHERE id IN (@p1, @p2, @p3) AND active = @p4",
         [VInt 1; VInt 2; VInt 3; VBool true], None).
Proof. vm_compute. reflexivity. Qed.

Example render_users_query_default_dialect :
  FromString (text_template (Parse_known users_query))
    (NewRenderer DialectMySQL)
    "SELECT * FROM users WHERE id IN {{ bind .IDs }} AND active = {{ bind .Active }}"
    (Some users_data)
  = Val ("SELECT * FROM users WHERE id IN (?, ?, ?) AND active = ?",
         [VInt 1; VInt 2; VInt 3; VBool true], None).
Proof. vm_compute. reflexivity. Qed.

Example placeholderFor_decimal :
  placeholderFor_in DialectPostgres 120 = "$120" ∧
  placeholderFor_in DialectSQLServer 12 = "@p12" ∧
  placeholderFor_in DialectOracle 1009 = ":1009".
Proof. repeat split. Qed.

(** * Further properties of the binder *)

(** [Bind] returns, and appends [appended v] to the arguments. *)
Lemma Bind_appends v qa :
  ∃ p, Bind v qa
       = (Val p, {| args := args qa ++ appended v; dialect := dialect qa |}).
Proof.
  destruct qa as [a d]. simpl.
  destruct (scalar v) eqn:Hs.
  - exists (placeholderFor_in d (Z.of_nat (length a + 1))).
    rewrite (Bind_scalar v a d Hs).
    destruct v; try discriminate Hs; reflexivity.
  - destruct (collection v) eqn:Hc.
    + destruct (reflect.Len (reflect.ValueOf v)) as [|n] eqn:Hn.
      * exists "(NULL)". rewrite (Bind_collection_empty v _ Hc Hn).
        assert (Hel : reflect.elements (reflect.ValueOf v) = [])
          by (apply length_zero_iff_nil; exact Hn).
        destruct v; try discriminate Hc; simpl appended; rewrite Hel;
          rewrite app_nil_r; reflexivity.
      * eexists. rewrite (Bind_collection_nonempty v a d Hc) by lia.
        destruct v; try discriminate Hc; reflexivity.
    + destruct v; try discriminate Hs; try discriminate Hc.
      eexists. apply Bind_nil.
Qed.

(** X1. [Bind] returns on every value, never panics: the loop over a slice
    or array stays within its bounds. It leaves the dialect as it was and
    only appends to the arguments: one entry for a scalar or the nil
    interface, the elements for a collection, hence nothing for an empty
    one. *)
Theorem Bind_returns_and_appends v qa :
  (∃ p, Bind v qa
        = (Val p, {| args := args qa ++ appended v; dialect := dialect qa |})) ∧
  (collection v = false → length (appended v) = 1) ∧
  (collection v = true →
   length (appended v) = reflect.Len (reflect.ValueOf v)).
Proof.
  split; [apply Bind_appends|].
  split; intros Hc; destruct v; try discriminate Hc; reflexivity.
Qed.

(** X2. After any sequence of calls of [Bind], scalars, nil and collections
    mixed, there is one returned text per call and the arguments are the
    arguments from before followed by what each call appends, in call
    order: earlier arguments are never changed, reordered or removed. *)
Theorem Bind_each_appends vs : ∀ qa,
  ∃ ps, Bind_each vs qa
        = (Val ps, {| args := args qa ++ flat_map appended vs;
                      dialect := dialect qa |})
        ∧ length ps = length vs.
Proof.
  induction vs as [|v vs IH]; intros qa.
  - exists []. simpl. rewrite app_nil_r. destruct qa; split; reflexivity.
  - destruct (Bind_appends v qa) as [p Hp].
    destruct (IH {| args := args qa ++ appended v; dialect := dialect qa |})
      as (ps & Hps & Hlen).
    exists (p :: ps). split.
    + simpl. unfold seqM at 1. rewrite Hp. unfold seqM at 1. rewrite Hps.
      simpl. rewrite <- app_assoc. reflexivity.
    + simpl. rewrite Hlen. reflexivity.
Qed.

Lemma append_inv_head (pre x y : string) : pre +:+ x = pre +:+ y → x = y.
Proof.
  induction pre as [|c pre IH]; simpl; intros H; [exact H|].
  inversion H. apply IH. assumption.
Qed.

(** X3. Under Postgres, SQL Server and Oracle the placeholder names its
    position: two positions with the same placeholder are the same
    position, so the placeholders returned for [k] scalars bound one after
    the other are pairwise distinct. *)
Theorem positional_placeholders_distinct d pre :
  positional d pre →
  (∀ n m, placeholderFor_in d n = placeholderFor_in d m → n = m) ∧
  (∀ vs ps qa',
     Forall (λ v, scalar v = true) vs →
     Bind_each vs (NewQueryArgs d) = (Val ps, qa') → NoDup ps).
Proof.
  intros Hd.
  assert (Hinj : ∀ n m, placeholderFor_in d n = placeholderFor_in d m → n = m).
  { intros n m. rewrite !(placeholderFor_in_positional d pre) by exact Hd.
    intros H. apply append_inv_head in H. apply (inj pretty). exact H. }
  split; [exact Hinj|].
  intros vs ps qa' Hvs. unfold NewQueryArgs.
  rewrite (Bind_each_scalars d vs [] Hvs). intros H. inversion H; subst.
  apply NoDup_fmap_2_strong; [|apply NoDup_seq].
  intros i j _ _ Hij. apply Hinj in Hij. lia.
Qed.

Lemma positional_placeholders_distinct_witness :
  NoDup ["$1"; "$2"; "$3"].
Proof.
  destruct (positional_placeholders_distinct DialectPostgres "$") as [_ Hnd].
  - left. split; reflexivity.
  - apply (Hnd [VInt 5; VInt 5; VString "a"] ["$1"; "$2"; "$3"]
               {| args := [VInt 5; VInt 5; VString "a"];
                  dialect := DialectPostgres |}).
    + repeat constructor.
    + reflexivity.
Defined.

(** X4. Every dialect other than postgres, sqlserver and oracle, the built-in
    MySQL, SQLite and Snowflake and any dialect the package does not know,
    gets the marker [?] at every position: [k] scalars bound one after the
    other return [k] times [?] and are the arguments, in order. *)
Theorem other_dialects_bind_question_marks (d : Dialect) vs :
  d ≠ DialectPostgres → d ≠ DialectSQLServer → d ≠ DialectOracle →
  (∀ n, placeholderFor_in d n = "?") ∧
  (Forall (λ v, scalar v = true) vs →
   Bind_each vs (NewQueryArgs d)
   = (Val (replicate (length vs) "?"), {| args := vs; dialect := d |})).
Proof.
  intros Hp Hs Ho.
  assert (Hq : ∀ n, placeholderFor_in d n = "?").
  { intros n. unfold placeholderFor_in.
    apply String.eqb_neq in Hp, Hs, Ho. rewrite Hp, Hs, Ho. reflexivity. }
  split; [exact Hq|].
  intros Hvs. unfold NewQueryArgs.
  rewrite (Bind_each_scalars d vs [] Hvs). simpl. f_equal. f_equal.
  generalize 1. induction (length vs) as [|k IH]; intros i; [reflexivity|].
  simpl. rewrite Hq, IH. reflexivity.
Qed.

Lemma other_dialects_bind_question_marks_witness :
  Bind_each [VInt 1; VBool false] (NewQueryArgs "duckdb")
  = (Val ["?"; "?"], {| args := [VInt 1; VBool false]; dialect := "duckdb" |}).
Proof.
  destruct (other_dialects_bind_question_marks "duckdb" [VInt 1; VBool false])
    as [_ H]; try discriminate.
  apply H. repeat constructor.
Defined.

(** * Further properties of identifiers *)

Lemma Identifier_keeps_binder name qa : snd (Identifier name qa) = qa.
Proof.
  destruct name; try reflexivity.
  destruct (identifierPattern_MatchString s) eqn:Hm.
  - rewrite (Identifier_valid s qa Hm). reflexivity.
  - unfold Identifier. rewrite Hm.
    destruct (String.eqb s ""); reflexivity.
Qed.

(** X5. Every dialect other than postgres, oracle and sqlserver, the
    built-in MySQL, SQLite and Snowflake and any dialect the package does
    not know, quotes with backticks: a valid name comes back as its
    segments, each between backticks, joined by periods. *)
Theorem other_dialects_quote_with_backticks (d : Dialect) s a :
  d ≠ DialectPostgres → d ≠ DialectOracle → d ≠ DialectSQLServer →
  identifierPattern_MatchString s = true →
  (∀ id, quoteIdentifier_in d id = "`" +:+ id +:+ "`") ∧
  Identifier (VString s) {| args := a; dialect := d |}
  = (Val (strings.Join
            (map (λ id, "`" +:+ id +:+ "`") (strings.Split s ".")) "."),
     {| args := a; dialect := d |}).
Proof.
  intros Hp Ho Hs Hm.
  assert (Hq : ∀ id, quoteIdentifier_in d id = "`" +:+ id +:+ "`").
  { intros id. unfold quoteIdentifier_in.
    apply String.eqb_neq in Hp, Ho, Hs. rewrite Hp, Ho, Hs. reflexivity. }
  split; [exact Hq|].
  rewrite (Identifier_valid s {| args := a; dialect := d |} Hm). simpl.
  rewrite (map_ext _ _ Hq). reflexivity.
Qed.

Lemma other_dialects_quote_with_backticks_witness :
  Identifier (VString "main.t1") {| args := []; dialect := "duckdb" |}
  = (Val "`main`.`t1`", {| args := []; dialect := "duckdb" |}).
Proof.
  destruct (other_dialects_quote_with_backticks "duckdb" "main.t1" [])
    as [_ H]; try discriminate; [reflexivity|].
  exact H.
Defined.

(** X6. A name that [Identifier] accepts holds none of the characters the
    dialects quote with (double quote, square brackets, backtick), nor a
    single quote, a semicolon, a space, a hyphen, a slash or a star: the
    quoted segments cannot be closed from inside, which is why no escaping
    is done. *)
Theorem accepted_identifier_has_no_delimiter s c :
  identifierPattern_MatchString s = true →
  In c (list_ascii_of_string s) →
  ¬ In c [ascii_of_nat 34; "["; "]"; "`"; "'"; ";"; " "; "-"; "/"; "*"]%char.
Proof.
  intros Hm Hin Hbad.
  apply MatchString_spec in Hm as [_ Hall]. specialize (Hall c Hin).
  simpl in Hbad.
  repeat (destruct Hbad as [<- | Hbad]; [discriminate Hall|]).
  exact Hbad.
Qed.

Lemma accepted_identifier_has_no_delimiter_witness :
  ¬ In "u"%char
      [ascii_of_nat 34; "["; "]"; "`"; "'"; ";"; " "; "-"; "/"; "*"]%char.
Proof.
  apply (accepted_identifier_has_no_delimiter "public.users" "u").
  - reflexivity.
  - simpl. tauto.
Defined.

Lemma Split_app_sep a b sep :
  strings.Split (a +:+ String sep b) sep
  = strings.Split a sep ++ strings.Split b sep.
Proof.
  induction a as [|c a IH]; simpl.
  - rewrite Ascii.eqb_refl. reflexivity.
  - destruct (Ascii.eqb c sep).
    + rewrite IH. reflexivity.
    + rewrite IH. pose proof (Split_nonempty a sep) as Hne.
      destruct (strings.Split a sep) as [|p ps]; [contradiction|reflexivity].
Qed.

Lemma append_assoc (x y z : string) : (x +:+ y) +:+ z = x +:+ y +:+ z.
Proof.
  induction x as [|c x IH]; [reflexivity|].
  change (String c ((x +:+ y) +:+ z) = String c (x +:+ y +:+ z)).
  rewrite IH. reflexivity.
Qed.

Lemma Join_app l1 l2 sep :
  l1 ≠ [] → l2 ≠ [] →
  strings.Join (l1 ++ l2) sep
  = strings.Join l1 sep +:+ sep +:+ strings.Join l2 sep.
Proof.
  unfold strings.Join. intros H1 H2.
  induction l1 as [|x l1 IH]; [contradiction|].
  destruct l1 as [|y l1].
  - simpl. destruct l2; [contradiction|reflexivity].
  - change (String.concat sep ((x :: y :: l1) ++ l2))
      with (x +:+ sep +:+ String.concat sep ((y :: l1) ++ l2)).
    rewrite IH by discriminate.
    change (String.concat sep (x :: y :: l1))
      with (x +:+ sep +:+ String.concat sep (y :: l1)).
    rewrite !append_assoc. reflexivity.
Qed.

Lemma all_in_class_app a b :
  all_in_class (a +:+ b) = all_in_class a && all_in_class b.
Proof.
  induction a as [|c a IH]; simpl; [reflexivity|].
  rewrite IH, andb_assoc. reflexivity.
Qed.

Lemma quoted_name_qualified d a b :
  quoted_name d (a +:+ "." +:+ b)
  = quoted_name d a +:+ "." +:+ quoted_name d b.
Proof.
  unfold quoted_name. change ("." +:+ b) with (String "."%char b).
  rewrite Split_app_sep, map_app.
  apply Join_app.
  - pose proof (Split_nonempty a ".") as H.
    destruct (strings.Split a "."); [contradiction|discriminate].
  - pose proof (Split_nonempty b ".") as H.
    destruct (strings.Split b "."); [contradiction|discriminate].
Qed.

(** X7. Quoting a qualified name is quoting its two sides: for accepted
    names [a] and [b], [Identifier] of [a.b] returns what it returns for
    [a], a period, and what it returns for [b]. *)
Theorem Identifier_qualified a b qa :
  identifierPattern_MatchString a = true →
  identifierPattern_MatchString b = true →
  ∃ qa_text qb_text,
    Identifier (VString a) qa = (Val qa_text, qa) ∧
    Identifier (VString b) qa = (Val qb_text, qa) ∧
    Identifier (VString (a +:+ "." +:+ b)) qa
    = (Val (qa_text +:+ "." +:+ qb_text), qa).
Proof.
  intros Ha Hb.
  exists (quoted_name (dialect qa) a), (quoted_name (dialect qa) b).
  split; [apply Identifier_valid, Ha|].
  split; [apply Identifier_valid, Hb|].
  assert (Hab : identifierPattern_MatchString (a +:+ "." +:+ b) = true).
  { apply MatchString_spec in Ha as [_ Ha]. apply MatchString_spec in Hb as [_ Hb].
    apply all_in_class_true in Ha, Hb.
    assert (Hall : all_in_class (a +:+ "." +:+ b) = true).
    { rewrite !all_in_class_app, Ha, Hb. reflexivity. }
    destruct a; exact Hall. }
  rewrite (Identifier_valid _ qa Hab).
  fold (quoted_name (dialect qa) (a +:+ "." +:+ b)).
  rewrite quoted_name_qualified. reflexivity.
Qed.

Lemma Identifier_qualified_witness :
  Identifier (VString ("hr" +:+ "." +:+ "emp.name"))
             (NewQueryArgs DialectSQLServer)
  = (Val ("[hr]" +:+ "." +:+ "[emp].[name]"), NewQueryArgs DialectSQLServer).
Proof.
  destruct (Identifier_qualified "hr" "emp.name"
              (NewQueryArgs DialectSQLServer) eq_refl eq_refl)
    as (ta & tb & Ha & Hb & Hab).
  inversion Ha; subst ta. inversion Hb; subst tb. exact Hab.
Defined.

(** X8. Periods at the ends of a name are not rejected: a name that is an
    accepted name followed by a period, or a period followed by an accepted
    name, is accepted, and the missing side comes back as an empty quoted
    segment. *)
Theorem Identifier_empty_segment a qa :
  identifierPattern_MatchString a = true →
  Identifier (VString (a +:+ ".")) qa
  = (Val (quoted_name (dialect qa) a +:+ "."
          +:+ quoteIdentifier_in (dialect qa) ""), qa) ∧
  Identifier (VString ("." +:+ a)) qa
  = (Val (quoteIdentifier_in (dialect qa) "" +:+ "."
          +:+ quoted_name (dialect qa) a), qa).
Proof.
  intros Ha.
  pose proof Ha as Hall. apply MatchString_spec in Hall as [_ Hall].
  apply all_in_class_true in Hall.
  split.
  - assert (Hm : identifierPattern_MatchString (a +:+ ".") = true).
    { assert (H : all_in_class (a +:+ ".") = true)
        by (rewrite all_in_class_app, Hall; reflexivity).
      destruct a; exact H. }
    rewrite (Identifier_valid _ qa Hm).
    fold (quoted_name (dialect qa) (a +:+ ".")).
    change (a +:+ ".") with (a +:+ "." +:+ "").
    rewrite quoted_name_qualified. reflexivity.
  - assert (Hm : identifierPattern_MatchString ("." +:+ a) = true).
    { change ("." +:+ a) with (String "."%char a). simpl. exact Hall. }
    rewrite (Identifier_valid _ qa Hm).
    fold (quoted_name (dialect qa) ("." +:+ a)).
    change ("." +:+ a) with ("" +:+ "." +:+ a).
    rewrite quoted_name_qualified. reflexivity.
Qed.

Lemma Identifier_empty_segment_witness :
  Identifier (VString "users.") (NewQueryArgs DialectMySQL)
  = (Val "`users`.``", NewQueryArgs DialectMySQL).
Proof.
  destruct (Identifier_empty_segment "users" (NewQueryArgs DialectMySQL)
              eq_refl) as [H _].
  exact H.
Defined.

(** * Further properties of the renderer *)

(** X9. [AddFunc] registers under a name whatever the renderer held before,
    also on a renderer whose map of functions is nil: the name then maps to
    the function, a later registration under the same name replaces an
    earlier one, every other name keeps its function, and the search paths
    and the default dialect are untouched. *)
Theorem AddFunc_registers r name fn :
  customFuncs (AddFunc r name fn) ≠ None ∧
  custom_funcs (AddFunc r name fn) !! name = Some fn ∧
  (∀ fn', custom_funcs (AddFunc (AddFunc r name fn') name fn)
          = custom_funcs (AddFunc r name fn)) ∧
  (∀ other, other ≠ name →
     custom_funcs (AddFunc r name fn) !! other = custom_funcs r !! other) ∧
  searchPaths (AddFunc r name fn) = searchPaths r ∧
  defaultDialect (AddFunc r name fn) = defaultDialect r.
Proof.
  unfold custom_funcs, AddFunc. simpl.
  split; [discriminate|].
  split; [apply lookup_insert_eq|].
  split; [intros fn'; apply insert_insert_eq|].
  split; [|split; reflexivity].
  intros other Hne. apply lookup_insert_ne. congruence.
Qed.

(** X10. [AddFuncs] merges: afterwards a name maps to the function given
    for it in this call when there is one, and to the function it had
    before otherwise, in whatever order the given map is visited; a nil map
    of functions adds nothing; and the render's table sees the merged
    functions. *)
Theorem AddFuncs_merges r funcs :
  custom_funcs (AddFuncs r funcs) = given_funcs funcs ∪ custom_funcs r ∧
  (∀ name fn,
     given_funcs funcs !! name = Some fn →
     render_funcMap (AddFuncs r funcs) !! name = Some fn) ∧
  (∀ name,
     given_funcs funcs !! name = None →
     render_funcMap (AddFuncs r funcs) !! name = render_funcMap r !! name).
Proof.
  assert (Hmerge :
    custom_funcs (AddFuncs r funcs) = given_funcs funcs ∪ custom_funcs r).
  { unfold custom_funcs at 1. unfold AddFuncs. simpl.
    fold (custom_funcs r). unfold range_entries, given_funcs.
    destruct funcs as [m|].
    - rewrite range_assign_union by apply NoDup_fst_map_to_list.
      rewrite list_to_map_to_list. reflexivity.
    - simpl. rewrite (left_id_L ∅ (∪)). reflexivity. }
  split; [exact Hmerge|]. split.
  - intros name fn Hfn.
    rewrite render_funcMap_lookup, Hmerge, lookup_union, Hfn.
    destruct (custom_funcs r !! name); reflexivity.
  - intros name Hnone.
    rewrite !render_funcMap_lookup, Hmerge, lookup_union, Hnone.
    destruct (custom_funcs r !! name); reflexivity.
Qed.

Lemma AddFuncs_merges_witness :
  render_funcMap
    (AddFuncs (AddFunc (NewRenderer DialectMySQL) "upper" failing_func)
              (Some {[ "upper" := shadow_bind ]}))
    !! "upper" = Some shadow_bind.
Proof.
  destruct (AddFuncs_merges
              (AddFunc (NewRenderer DialectMySQL) "upper" failing_func)
              (Some {[ "upper" := shadow_bind ]})) as (_ & Hnew & _).
  apply Hnew. apply lookup_singleton_eq.
Defined.

Section Resolution.

Variable os_Stat : string → option error.
Variable os_ReadFile : string → string + error.
Variable filepath_Join : string → string → string.

Lemma findTemplateFile_loop_Some dirs name full :
  findTemplateFile_loop os_Stat filepath_Join dirs name = Some full →
  os_Stat full = None ∧ ∃ dir, In dir dirs ∧ full = filepath_Join dir name.
Proof.
  induction dirs as [|d dirs IH]; simpl; [discriminate|].
  destruct (os_Stat (filepath_Join d name)) eqn:Hd.
  - intros H. destruct (IH H) as (Hs & dir & Hin & ->).
    split; [exact Hs|]. exists dir. split; [right; exact Hin | reflexivity].
  - intros H. inversion H; subst. split; [exact Hd|].
    exists d. split; [left; reflexivity | reflexivity].
Qed.

Lemma findTemplateFile_loop_None dirs name :
  findTemplateFile_loop os_Stat filepath_Join dirs name = None ↔
  ∀ dir, In dir dirs → os_Stat (filepath_Join dir name) ≠ None.
Proof.
  induction dirs as [|d dirs IH]; simpl.
  - split; [intros _ dir [] | reflexivity].
  - destruct (os_Stat (filepath_Join d name)) eqn:Hd.
    + rewrite IH. split.
      * intros H dir [<- | Hin]; [congruence | apply H, Hin].
      * intros H dir Hin. apply H. right. exact Hin.
    + split; [discriminate|]. intros H. exfalso.
      apply (H d); [left; reflexivity | exact Hd].
Qed.

(** X11. A path that [findTemplateFile] returns without error is a path
    [os.Stat] accepted, and it is the name itself or the name joined onto
    one of the search paths; and [findTemplateFile] fails exactly when
    [os.Stat] rejects the name and rejects it joined onto every search
    path. *)
Theorem findTemplateFile_sound_complete r name :
  (∀ path,
     findTemplateFile os_Stat filepath_Join r name = (path, None) →
     os_Stat path = None ∧
     (path = name ∨
      ∃ dir, In dir (searchPaths r) ∧ path = filepath_Join dir name)) ∧
  ((∃ path err,
      findTemplateFile os_Stat filepath_Join r name = (path, Some err)) ↔
   os_Stat name ≠ None ∧
   ∀ dir, In dir (searchPaths r) → os_Stat (filepath_Join dir name) ≠ None).
Proof.
  unfold findTemplateFile. split.
  - intros path.
    destruct (os_Stat name) eqn:Hname.
    + destruct (findTemplateFile_loop _ _ _ _) as [full|] eqn:Hloop;
        [|discriminate].
      intros H. inversion H; subst.
      destruct (findTemplateFile_loop_Some _ _ _ Hloop) as [Hs Hdir].
      split; [exact Hs | right; exact Hdir].
    + intros H. inversion H; subst. split; [exact Hname | left; reflexivity].
  - destruct (os_Stat name) eqn:Hname.
    + destruct (findTemplateFile_loop _ _ _ _) as [full|] eqn:Hloop.
      * split; [intros (? & ? & H); discriminate H|].
        intros [_ Hall]. apply findTemplateFile_loop_None in Hall. congruence.
      * split; [|eauto]. intros _. split; [discriminate|].
        apply findTemplateFile_loop_None, Hloop.
    + split; [intros (? & ? & H); discriminate H|].
      intros [H _]. congruence.
Qed.


Variable engine : Engine.


End Resolution.

Lemma findTemplateFile_sound_complete_witness :
  (∃ path err,
     findTemplateFile Stat_one_file Join_slash
       (AddSearchPath (NewRenderer DialectMySQL) "templates") "q.sql"
     = (path, Some err)).
Proof.
  destruct (findTemplateFile_sound_complete Stat_one_file Join_slash
              (AddSearchPath (NewRenderer DialectMySQL) "templates") "q.sql")
    as [_ [_ Hfail]].
  apply Hfail. split; [discriminate|].
  intros dir [<- | []]. discriminate.
Defined.


(** * Further properties of a render *)

Lemma binder_eta qa : {| args := args qa ++ []; dialect := dialect qa |} = qa.
Proof. destruct qa. simpl. rewrite app_nil_r. reflexivity. Qed.

(** A call of a function of the table only appends to the arguments, and
    appends nothing unless the function is the [Bind] of the binder. *)
Lemma call_appends fn argv qa :
  ∃ extra,
    snd (template.call fn argv qa)
    = {| args := args qa ++ extra; dialect := dialect qa |} ∧
    (fn ≠ BinderBind → extra = []).
Proof.
  destruct fn as [| |n body].
  - destruct argv as [|a [|b argv]].
    + exists []. split; [simpl; symmetry; apply binder_eta | reflexivity].
    + exists (appended a). split; [|congruence].
      destruct (Bind_appends a qa) as [p Hp].
      unfold template.call, seqM. rewrite Hp. reflexivity.
    + exists []. split; [simpl; symmetry; apply binder_eta | reflexivity].
  - exists []. split; [|reflexivity]. rewrite binder_eta.
    destruct argv as [|a [|b argv]]; try reflexivity.
    unfold template.call, seqM.
    pose proof (Identifier_keeps_binder a qa) as Hid.
    destruct (Identifier a qa) as [[t|msg] qa']; simpl in *; exact Hid.
  - exists []. split; [|reflexivity]. rewrite binder_eta.
    unfold template.call. destruct (body argv); reflexivity.
Qed.

Lemma safeCall_appends fn argv qa :
  ∃ extra,
    snd (template.safeCall fn argv qa)
    = {| args := args qa ++ extra; dialect := dialect qa |} ∧
    (fn ≠ BinderBind → extra = []).
Proof.
  destruct (call_appends fn argv qa) as (extra & Hsnd & Hnil).
  exists extra. split; [|exact Hnil].
  unfold template.safeCall.
  destruct (template.call fn argv qa) as [[r|msg] qa']; exact Hsnd.
Qed.

Lemma Execute_appends funcs data nodes : ∀ buf qa,
  ∃ extra,
    snd (template.Execute funcs nodes data buf qa)
    = {| args := args qa ++ extra; dialect := dialect qa |} ∧
    (forallb (λ node, negb (calls_Bind funcs node)) nodes = true →
     extra = []).
Proof.
  induction nodes as [|node nodes IH]; intros buf qa.
  - exists []. split; [simpl; symmetry; apply binder_eta | reflexivity].
  - destruct node as [text | fname operands].
    + destruct (IH (buf +:+ text) qa) as (extra & Hsnd & Hnil).
      exists extra. split; [exact Hsnd|]. intros H. apply Hnil.
      simpl in H. exact H.
    + simpl. destruct (funcs !! fname) as [fn|] eqn:Hfn.
      2:{ exists []. split; [simpl; symmetry; apply binder_eta | reflexivity]. }
      destruct (negb (Nat.eqb (length operands) (template.arity fn))).
      { exists []. split; [simpl; symmetry; apply binder_eta | reflexivity]. }
      destruct (safeCall_appends fn (map (template.evalArg data) operands) qa)
        as (extra1 & Hsnd1 & Hnil1).
      unfold seqM.
      destruct (template.safeCall fn (map (template.evalArg data) operands) qa)
        as [[[out [err|]]|msg] qa1]; simpl in Hsnd1; subst qa1.
      * exists extra1. split; [reflexivity|].
        intros H. apply andb_prop in H as [H _]. apply Hnil1.
        intros ->. discriminate H.
      * destruct (IH (buf +:+ out)
                     {| args := args qa ++ extra1; dialect := dialect qa |})
          as (extra2 & Hsnd2 & Hnil2).
        exists (extra1 ++ extra2). split.
        { rewrite Hsnd2. simpl. rewrite app_assoc. reflexivity. }
        intros H. apply andb_prop in H as [H1 H2].
        rewrite (Hnil2 H2), app_nil_r. apply Hnil1.
        intros ->. discriminate H1.
      * exists extra1. split; [reflexivity|].
        intros H. apply andb_prop in H as [H _]. apply Hnil1.
        intros ->. discriminate H.
Qed.

(** X13. Executing a template never removes, reorders or rewrites an
    argument and never changes the dialect of the binder, whatever the
    functions of the table, custom ones included: the binder afterwards
    holds the arguments from before followed by appended ones. When no
    action of the template calls the [Bind] of the binder (because there is
    none, or because a custom function took the name bind), nothing is
    appended, and a successful render returns no arguments. *)
Theorem Execute_only_Bind_appends funcs nodes data buf qa :
  (∃ extra,
     snd (template.Execute funcs nodes data buf qa)
     = {| args := args qa ++ extra; dialect := dialect qa |}) ∧
  (forallb (λ node, negb (calls_Bind funcs node)) nodes = true →
   snd (template.Execute funcs nodes data buf qa) = qa) ∧
  (∀ parse r s input d text bound,
     parse (render_funcMap r) s = Val (inl nodes) →
     forallb (λ node, negb (calls_Bind (render_funcMap r) node)) nodes
     = true →
     FromStringWithDialect (text_template parse) r s input d
     = Val (text, bound, None) →
     bound = []).
Proof.
  split; [|split].
  - destruct (Execute_appends funcs data nodes buf qa) as (extra & H & _).
    exists extra. exact H.
  - intros Hno.
    destruct (Execute_appends funcs data nodes buf qa) as (extra & H & Hnil).
    rewrite H, (Hnil Hno). apply binder_eta.
  - intros parse r s input d text bound Hparse Hno.
    unfold FromStringWithDialect. simpl Parse. simpl Execute. rewrite Hparse.
    destruct (Execute_appends (render_funcMap r) (data_or_empty input) nodes
                "" (NewQueryArgs d)) as (extra & H & Hnil).
    rewrite (Hnil Hno) in H.
    destruct (template.Execute _ _ _ _ _) as [[[out [err|]]|msg] qa'];
      try discriminate.
    simpl in H. subst qa'. intros Heq. inversion Heq. reflexivity.
Qed.

Lemma Execute_only_Bind_appends_witness :
  snd (template.Execute
         (render_funcMap
            (AddFunc (NewRenderer DialectPostgres) "bind" shadow_bind))
         [template.TextNode "id = ";
          template.ActionNode "bind" [template.Field "ID"]]
         {[ "ID" := VInt 7 ]} ""
         {| args := [VBool true]; dialect := DialectPostgres |})
  = {| args := [VBool true]; dialect := DialectPostgres |}.
Proof.
  destruct (Execute_only_Bind_appends
              (render_funcMap
                 (AddFunc (NewRenderer DialectPostgres) "bind" shadow_bind))
              [template.TextNode "id = ";
               template.ActionNode "bind" [template.Field "ID"]]
              {[ "ID" := VInt 7 ]} ""
              {| args := [VBool true]; dialect := DialectPostgres |})
    as (_ & Hno & _).
  apply Hno. vm_compute. reflexivity.
Defined.

Lemma Execute_binds_in_order funcs data nodes : ∀ buf qa,
  funcs !! "bind" = Some BinderBind →
  forallb text_or_bind nodes = true →
  ∃ text,
    template.Execute funcs nodes data buf qa
    = (Val (text, None),
       {| args := args qa ++ bound_values data nodes; dialect := dialect qa |}).
Proof.
  induction nodes as [|node nodes IH]; intros buf qa Hbind Hnodes.
  - exists buf. simpl. unfold ret. rewrite binder_eta. reflexivity.
  - simpl in Hnodes. apply andb_prop in Hnodes as [Hnode Hnodes].
    destruct node as [text | fname [|a [|b operands]]]; try discriminate Hnode.
    + destruct (IH (buf +:+ text) qa Hbind Hnodes) as [out Hout].
      exists out. exact Hout.
    + simpl in Hnode. apply String.eqb_eq in Hnode. subst fname.
      destruct (Bind_appends (template.evalArg data a) qa)
        as [p Hp].
      destruct (IH (buf +:+ p)
                   {| args := args qa ++ appended (template.evalArg data a);
                      dialect := dialect qa |} Hbind Hnodes) as [out Hout].
      exists out. simpl. rewrite Hbind. simpl.
      unfold seqM, template.safeCall, template.call, seqM. rewrite Hp.
      unfold ret. rewrite Hout. simpl. rewrite <- app_assoc. reflexivity.
Qed.

(** X14. For a template made of literal texts and bind actions, with no
    custom function named bind, the render succeeds and the arguments it
    returns are exactly the values the bind actions were given, in the
    order of the template, a collection giving its elements in place and a
    missing key of the data the nil entry. *)
Theorem render_returns_bound_values_in_template_order
    parse r s input d nodes :
  custom_funcs r !! "bind" = None →
  parse (render_funcMap r) s = Val (inl nodes) →
  forallb text_or_bind nodes = true →
  ∃ text,
    FromStringWithDialect (text_template parse) r s input d
    = Val (text, bound_values (data_or_empty input) nodes, None).
Proof.
  intros Hcustom Hparse Hnodes.
  assert (Hbind : render_funcMap r !! "bind" = Some BinderBind)
    by (rewrite render_funcMap_lookup, Hcustom; reflexivity).
  destruct (Execute_binds_in_order (render_funcMap r) (data_or_empty input)
              nodes "" (NewQueryArgs d) Hbind Hnodes) as [text Hexec].
  exists text. unfold FromStringWithDialect. simpl Parse. simpl Execute.
  rewrite Hparse, Hexec. reflexivity.
Qed.

Lemma render_returns_bound_values_in_template_order_witness :
  ∃ text,
    FromStringWithDialect (text_template (Parse_known users_query))
      (NewRenderer DialectMySQL)
      "SELECT * FROM users WHERE id IN {{ bind .IDs }} AND active = {{ bind .Active }}"
      (Some {[ "IDs" := VSlice (Some [VInt 1; VInt 2]) ]}) DialectOracle
    = Val (text, [VInt 1; VInt 2; VNil], None).
Proof.
  destruct (render_returns_bound_values_in_template_order
              (Parse_known users_query) (NewRenderer DialectMySQL)
              "SELECT * FROM users WHERE id IN {{ bind .IDs }} AND active = {{ bind .Active }}"
              (Some {[ "IDs" := VSlice (Some [VInt 1; VInt 2]) ]})
              DialectOracle
              [template.TextNode "SELECT * FROM users WHERE id IN ";
               template.ActionNode "bind" [template.Field "IDs"];
               template.TextNode " AND active = ";
               template.ActionNode "bind" [template.Field "Active"]]
              eq_refl eq_refl eq_refl) as [text Htext].
  exists text. rewrite Htext. vm_compute. reflexivity.
Defined.
